(** * GayBerneForceImpl: parameter checks and kernel dispatch

    A shallow embedding of [openmmapi/src/GayBerneForceImpl.cpp] and the
    properties of its three entry points: [initialize], which creates the
    backend kernel and checks the force's specification,
    [calcForcesAndEnergy], which is gated by the force-group mask, and
    [updateParametersInContext].

    C++ [int] is modelled as [Z] (the only arithmetic on it, [1 << group],
    has its 32-bit wrap-around written out), C++ [double] as Rocq's
    primitive binary64 [float], so that every comparison below has the IEEE
    semantics of the source (a NaN fails every test). *)

From Stdlib Require Import ZArith Bool Lia PrimFloat SpecFloat FloatOps FloatAxioms.
From stdpp Require Import base list gmap sets strings pretty.

Local Open Scope Z_scope.

(** ** Doubles *)

(** The four comparisons the source uses, on doubles. *)
Definition flt (a b : float) : bool := PrimFloat.ltb a b.
Definition fle (a b : float) : bool := PrimFloat.leb a b.
Definition fgt (a b : float) : bool := PrimFloat.ltb b a.
Definition fge (a b : float) : bool := PrimFloat.leb b a.

Definition fzero : float := 0%float.
Definition fhalf : float := 0.5%float.

(** ** The objects the implementation reads *)

(** [Vec3]: three doubles, indexed 0..2. *)
Record Vec3 := mkVec3 { vec_x : float; vec_y : float; vec_z : float }.

Inductive NonbondedMethod := NoCutoff | CutoffNonPeriodic | CutoffPeriodic.

Global Instance NonbondedMethod_eq_dec : EqDecision NonbondedMethod.
Proof. solve_decision. Defined.

(** Modelled from the spec: the per-particle record behind
    [GayBerneForce::getParticleParameters] (the class is declared in a header
    that is not part of this unit).  Field order follows the getter's
    out-parameters. *)
Record ParticleInfo := mkParticle {
  p_sigma : float;
  p_epsilon : float;
  p_xparticle : Z;
  p_yparticle : Z;
  p_rx : float; p_ry : float; p_rz : float;
  p_ex : float; p_ey : float; p_ez : float
}.

(** Modelled from the spec: the record behind
    [GayBerneForce::getExceptionParameters]. *)
Record ExceptionInfo := mkException {
  e_particle1 : Z;
  e_particle2 : Z;
  e_sigma : float;
  e_epsilon : float
}.

(** Modelled from the spec: the force description [GayBerneForce], with the
    fields its getters return. *)
Record GayBerneForce := mkForce {
  particles : list ParticleInfo;
  exceptions : list ExceptionInfo;
  nonbondedMethod : NonbondedMethod;
  cutoffDistance : float;
  switchingDistance : float;
  useSwitchingFunction : bool;
  forceGroup : Z
}.

(** [getNumParticles] and [getNumExceptions] return the sizes as [int]. *)
Definition getNumParticles (f : GayBerneForce) : Z := Z.of_nat (length (particles f)).
Definition getNumExceptions (f : GayBerneForce) : Z := Z.of_nat (length (exceptions f)).

(** The setters of the description a caller uses between steps. *)
Definition setCutoffDistance (c : float) (f : GayBerneForce) : GayBerneForce :=
  mkForce (particles f) (exceptions f) (nonbondedMethod f) c
          (switchingDistance f) (useSwitchingFunction f) (forceGroup f).
Definition setSwitchingDistance (s : float) (f : GayBerneForce) : GayBerneForce :=
  mkForce (particles f) (exceptions f) (nonbondedMethod f) (cutoffDistance f)
          s (useSwitchingFunction f) (forceGroup f).
Definition setParticles (ps : list ParticleInfo) (f : GayBerneForce) : GayBerneForce :=
  mkForce ps (exceptions f) (nonbondedMethod f) (cutoffDistance f)
          (switchingDistance f) (useSwitchingFunction f) (forceGroup f).
Definition setExceptions (es : list ExceptionInfo) (f : GayBerneForce) : GayBerneForce :=
  mkForce (particles f) es (nonbondedMethod f) (cutoffDistance f)
          (switchingDistance f) (useSwitchingFunction f) (forceGroup f).

(** Modelled from the spec: what [initialize] reads of the [System], its
    particle count and its default periodic box vectors. *)
Record System := mkSystem {
  sys_numParticles : Z;
  sys_boxVectors : Vec3 * Vec3 * Vec3
}.

Definition setDefaultPeriodicBoxVectors (b : Vec3 * Vec3 * Vec3) (s : System) : System :=
  mkSystem (sys_numParticles s) b.

(** ** Exceptions *)

(** One constructor per [throw] of the unit, carrying the values its message
    prints; [KernelException] is whatever the platform or the kernel throws,
    and [NullKernel] stands for [getAs] on a kernel handle that was never
    created. *)
Inductive OpenMMException :=
| ParticleCountMismatch
| BadSwitchingDistance
| IllegalXParticle (xparticle : Z)
| IllegalYParticle (yparticle : Z)
| ParticleSigmaNegative
| ParticleEpsilonNegative
| ParticleRadiiNotPositive
| ParticleScaleNotPositive
| IllegalExceptionParticle (particle : Z)
| MultipleExceptions (particle0 particle1 : Z)
| ExceptionSigmaNegative
| ExceptionEpsilonNegative
| CutoffTooLarge
| KernelException (msg : string)
| NullKernel.

Global Instance OpenMMException_eq_dec : EqDecision OpenMMException.
Proof. solve_decision. Defined.

(** The message of each exception; [cutoffTooLarge] is the text of
    [Messages::cutoffTooLarge], a constant of another unit. *)
Definition what (cutoffTooLarge : string) (e : OpenMMException) : string :=
  match e with
  | ParticleCountMismatch =>
      "GayBerneForce must have exactly as many particles as the System it belongs to."
  | BadSwitchingDistance =>
      "GayBerneForce: Switching distance must satisfy 0 <= r_switch < r_cutoff"
  | IllegalXParticle x =>
      "GayBerneForce: Illegal particle index for xparticle: " +:+ pretty x
  | IllegalYParticle y =>
      "GayBerneForce: Illegal particle index for a yparticle: " +:+ pretty y
  | ParticleSigmaNegative => "GayBerneForce: sigma for a particle cannot be negative"
  | ParticleEpsilonNegative => "GayBerneForce: epsilon for a particle cannot be negative"
  | ParticleRadiiNotPositive => "GayBerneForce: radii for a particle must be positive"
  | ParticleScaleNotPositive =>
      "GayBerneForce: scale factors for a particle must be positive"
  | IllegalExceptionParticle p =>
      "GayBerneForce: Illegal particle index for an exception: " +:+ pretty p
  | MultipleExceptions p0 p1 =>
      "GayBerneForce: Multiple exceptions are specified for particles "
        +:+ pretty p0 +:+ " and " +:+ pretty p1
  | ExceptionSigmaNegative => "GayBerneForce: sigma for an exception cannot be negative"
  | ExceptionEpsilonNegative =>
      "GayBerneForce: epsilon for an exception cannot be negative"
  | CutoffTooLarge => "GayBerneForce: " +:+ cutoffTooLarge
  | KernelException msg => msg
  | NullKernel => "null kernel"
  end.

(** The outcome of code that may throw. *)
Inductive Result (A : Type) :=
| Ok (a : A)
| Throw (e : OpenMMException).
Arguments Ok {A} a.
Arguments Throw {A} e.

Definition rbind {A B} (r : Result A) (k : A -> Result B) : Result B :=
  match r with
  | Ok a => k a
  | Throw e => Throw e
  end.

(** [if (c) throw e;] *)
Definition throw_if (c : bool) (e : OpenMMException) : Result unit :=
  if c then Throw e else Ok tt.

Declare Scope result_scope.
Delimit Scope result_scope with result.
Notation "x <- r ;; k" := (rbind r (fun x => k))
  (at level 100, r at next level, right associativity) : result_scope.
Notation "r ;;; k" := (rbind r (fun _ => k))
  (at level 100, right associativity) : result_scope.

(** ** The checks of [initialize] *)

(** Lines 65-84, the body of the loop over particles. *)
Definition check_particle (numParticles : Z) (p : ParticleInfo) : Result unit :=
  (throw_if ((p_xparticle p <? -1) || (p_xparticle p >=? numParticles))
            (IllegalXParticle (p_xparticle p)) ;;;
   throw_if ((p_yparticle p <? -1) || (p_yparticle p >=? numParticles))
            (IllegalYParticle (p_yparticle p)) ;;;
   throw_if (flt (p_sigma p) fzero) ParticleSigmaNegative ;;;
   throw_if (flt (p_epsilon p) fzero) ParticleEpsilonNegative ;;;
   throw_if (fle (p_rx p) fzero || fle (p_ry p) fzero || fle (p_rz p) fzero)
            ParticleRadiiNotPositive ;;;
   throw_if (fle (p_ex p) fzero || fle (p_ey p) fzero || fle (p_ez p) fzero)
            ParticleScaleNotPositive)%result.

(** Lines 61-85, the loop over particles in index order. *)
Fixpoint check_particles (numParticles : Z) (ps : list ParticleInfo) : Result unit :=
  match ps with
  | [] => Ok tt
  | p :: ps' => (check_particle numParticles p ;;; check_particles numParticles ps')%result
  end.

(** [exceptions[i].count(j) > 0] on the [vector<set<int>>] of line 86. *)
Definition seen_count (seen : list (gset Z)) (i j : Z) : bool :=
  bool_decide (j ∈ seen !!! Z.to_nat i).

(** [exceptions[i].insert(j)]. *)
Definition seen_insert (i j : Z) (seen : list (gset Z)) : list (gset Z) :=
  alter (fun s => {[ j ]} ∪ s) (Z.to_nat i) seen.

(** Lines 88-112, the body of the loop over exceptions: the checks, then the
    two insertions into the sets of seen pairs. *)
Definition check_exception (numParticles : Z) (seen : list (gset Z)) (e : ExceptionInfo)
  : Result (list (gset Z)) :=
  let p0 := e_particle1 e in
  let p1 := e_particle2 e in
  (throw_if ((p0 <? 0) || (p0 >=? numParticles)) (IllegalExceptionParticle p0) ;;;
   throw_if ((p1 <? 0) || (p1 >=? numParticles)) (IllegalExceptionParticle p1) ;;;
   throw_if (seen_count seen p0 p1 || seen_count seen p1 p0) (MultipleExceptions p0 p1) ;;;
   throw_if (flt (e_sigma e) fzero) ExceptionSigmaNegative ;;;
   throw_if (flt (e_epsilon e) fzero) ExceptionEpsilonNegative ;;;
   Ok (seen_insert p1 p0 (seen_insert p0 p1 seen)))%result.

(** Lines 87-113, the loop over exceptions in declaration order. *)
Fixpoint check_exceptions (numParticles : Z) (seen : list (gset Z)) (es : list ExceptionInfo)
  : Result (list (gset Z)) :=
  match es with
  | [] => Ok seen
  | e :: es' =>
      (seen' <- check_exception numParticles seen e ;;
       check_exceptions numParticles seen' es')%result
  end.

(** The condition of line 118. *)
Definition cutoff_exceeds_half_box (cutoff : float) (box : Vec3 * Vec3 * Vec3) : bool :=
  let '(a, b, c) := box in
  fgt cutoff (PrimFloat.mul fhalf (vec_x a))
  || fgt cutoff (PrimFloat.mul fhalf (vec_y b))
  || fgt cutoff (PrimFloat.mul fhalf (vec_z c)).

(** Lines 114-120. *)
Definition check_periodic_box (owner : GayBerneForce) (system : System) : Result unit :=
  match nonbondedMethod owner with
  | CutoffPeriodic =>
      throw_if (cutoff_exceeds_half_box (cutoffDistance owner) (sys_boxVectors system))
               CutoffTooLarge
  | _ => Ok tt
  end.

(** The condition of line 58. *)
Definition switching_out_of_range (owner : GayBerneForce) : bool :=
  flt (switchingDistance owner) fzero
  || fge (switchingDistance owner) (cutoffDistance owner).

(** Lines 57-60. *)
Definition check_switching (owner : GayBerneForce) : Result unit :=
  if useSwitchingFunction owner
  then throw_if (switching_out_of_range owner) BadSwitchingDistance
  else Ok tt.

(** Lines 55-113: every check that precedes the periodic box check. *)
Definition check_before_box (owner : GayBerneForce) (system : System) : Result unit :=
  (throw_if (negb (getNumParticles owner =? sys_numParticles system)) ParticleCountMismatch ;;;
   check_switching owner ;;;
   check_particles (getNumParticles owner) (particles owner) ;;;
   _ <- check_exceptions (getNumParticles owner)
          (replicate (Z.to_nat (getNumParticles owner)) ∅) (exceptions owner) ;;
   Ok tt)%result.

(** Lines 54-120 of [initialize]: all the checks, in the order of the source. *)
Definition checkSpecification (owner : GayBerneForce) (system : System) : Result unit :=
  (check_before_box owner system ;;; check_periodic_box owner system)%result.

(** ** The dispatcher and its collaborators *)

(** The calls the implementation makes on its collaborators, in the order it
    makes them: the platform's kernel factory, the three operations of the
    kernel, and the context's notification. *)
Inductive Event :=
| CreateKernel (name : string)
| KernelInitialize
| KernelExecute (includeForces includeEnergy : bool)
| KernelCopyParametersToContext
| SystemChanged.

Global Instance Event_eq_dec : EqDecision Event.
Proof. solve_decision. Defined.

(** Modelled from the spec: what this unit uses of [ContextImpl], the system
    it simulates and the force buffer shared by all forces. *)
Record ContextImpl := mkContext {
  ctx_system : System;
  ctx_forces : list Vec3
}.

(** The backend: [Platform::createKernel] and the interface
    [CalcGayBerneForceKernel], over a type [K] of kernel objects.  Each
    operation may throw; an operation of the kernel returns the kernel object
    as it left it, and [execute] also the force buffer. *)
Class Backend (K : Type) := {
  Name : string;
  createKernel : string -> ContextImpl -> Result K;
  kernel_initialize : System -> GayBerneForce -> K -> Result unit * K;
  kernel_execute : ContextImpl -> bool -> bool -> K -> Result float * K * list Vec3;
  kernel_copyParametersToContext : ContextImpl -> GayBerneForce -> K -> Result unit * K
}.

(** Everything a member function of [GayBerneForceImpl] can reach: the force
    it refers to ([owner], a reference, so the caller's edits are seen), its
    kernel handle (empty until [initialize] assigns it), the context, and the
    log of calls made so far. *)
Record World (K : Type) := mkWorld {
  owner : GayBerneForce;
  kernel : option K;
  context : ContextImpl;
  calls : list Event
}.
Arguments mkWorld {K}.
Arguments owner {K}.
Arguments kernel {K}.
Arguments context {K}.
Arguments calls {K}.

(** Code that reads and writes the world and may throw; after a throw the
    world is as the code left it. *)
Definition Impl (K A : Type) : Type := World K -> Result A * World K.

Definition ret {K A} (a : A) : Impl K A := fun w => (Ok a, w).

Definition bind {K A B} (m : Impl K A) (k : A -> Impl K B) : Impl K B :=
  fun w =>
    match m w with
    | (Ok a, w') => k a w'
    | (Throw e, w') => (Throw e, w')
    end.

Declare Scope impl_scope.
Delimit Scope impl_scope with impl.
Notation "x <- m ;; k" := (bind m (fun x => k))
  (at level 100, m at next level, right associativity) : impl_scope.
Notation "m ;;; k" := (bind m (fun _ => k))
  (at level 100, right associativity) : impl_scope.

(** 32-bit two's complement wrap-around, and [a << n] on [int]. *)
Definition int_wrap (z : Z) : Z := (z + 2 ^ 31) mod 2 ^ 32 - 2 ^ 31.
Definition int_shl (a n : Z) : Z := int_wrap (Z.shiftl a n).

Section Dispatcher.
Context {K : Type} `{!Backend K}.

Definition get_owner : Impl K GayBerneForce := fun w => (Ok (owner w), w).
Definition get_context : Impl K ContextImpl := fun w => (Ok (context w), w).
Definition lift_result {A} (r : Result A) : Impl K A := fun w => (r, w).

Definition record (e : Event) : Impl K unit :=
  fun w => (Ok tt, mkWorld (owner w) (kernel w) (context w) (calls w ++ [e])).

(** [kernel = ...] *)
Definition assign_kernel (k : K) : Impl K unit :=
  fun w => (Ok tt, mkWorld (owner w) (Some k) (context w) (calls w)).

Definition set_forces (f : list Vec3) : Impl K unit :=
  fun w => (Ok tt, mkWorld (owner w) (kernel w)
                           (mkContext (ctx_system (context w)) f) (calls w)).

(** [kernel.getAs<CalcGayBerneForceKernel>()] *)
Definition getAs : Impl K K :=
  fun w => match kernel w with
           | Some k => (Ok k, w)
           | None => (Throw NullKernel, w)
           end.

(** [context.getPlatform().createKernel(name, context)] *)
Definition call_createKernel (name : string) : Impl K K :=
  (record (CreateKernel name) ;;;
   ctx <- get_context ;;
   lift_result (createKernel name ctx))%impl.

(** [kernel.getAs<...>().initialize(context.getSystem(), owner)] *)
Definition call_kernel_initialize : Impl K unit :=
  (k <- getAs ;;
   record KernelInitialize ;;;
   ctx <- get_context ;;
   o <- get_owner ;;
   let '(r, k') := kernel_initialize (ctx_system ctx) o k in
   assign_kernel k' ;;; lift_result r)%impl.

(** [kernel.getAs<...>().execute(context, includeForces, includeEnergy)] *)
Definition call_kernel_execute (includeForces includeEnergy : bool) : Impl K float :=
  (k <- getAs ;;
   record (KernelExecute includeForces includeEnergy) ;;;
   ctx <- get_context ;;
   let '(r, k', forces') := kernel_execute ctx includeForces includeEnergy k in
   assign_kernel k' ;;; set_forces forces' ;;; lift_result r)%impl.

(** [kernel.getAs<...>().copyParametersToContext(context, owner)] *)
Definition call_kernel_copyParametersToContext : Impl K unit :=
  (k <- getAs ;;
   record KernelCopyParametersToContext ;;;
   ctx <- get_context ;;
   o <- get_owner ;;
   let '(r, k') := kernel_copyParametersToContext ctx o k in
   assign_kernel k' ;;; lift_result r)%impl.

(** Modelled from the spec: [ContextImpl::systemChanged], the notification
    that force-affecting state changed (defined in another unit). *)
Definition systemChanged : Impl K unit := record SystemChanged.

(** [GayBerneForceImpl::initialize], lines 49-122. *)
Definition initialize : Impl K unit :=
  (k <- call_createKernel Name ;;
   assign_kernel k ;;;
   ctx <- get_context ;;
   o <- get_owner ;;
   lift_result (checkSpecification o (ctx_system ctx)) ;;;
   call_kernel_initialize)%impl.

(** [GayBerneForceImpl::calcForcesAndEnergy], lines 124-128. *)
Definition calcForcesAndEnergy (includeForces includeEnergy : bool) (groups : Z)
  : Impl K float :=
  (o <- get_owner ;;
   if negb (Z.land groups (int_shl 1 (forceGroup o)) =? 0)
   then call_kernel_execute includeForces includeEnergy
   else ret fzero)%impl.

(** [GayBerneForceImpl::getKernelNames], lines 130-134. *)
Definition getKernelNames : list string := [] ++ [Name].

(** [GayBerneForceImpl::updateParametersInContext], lines 136-139. *)
Definition updateParametersInContext : Impl K unit :=
  (call_kernel_copyParametersToContext ;;; systemChanged)%impl.

End Dispatcher.

(** The caller's edit of the force between two calls. *)
Definition edit_owner {K} (f : GayBerneForce -> GayBerneForce) (w : World K) : World K :=
  mkWorld (f (owner w)) (kernel w) (context w) (calls w).

(** ** A test double of the backend

    A kernel that keeps a copy of the parameters it was given, reports the
    energy 2.5 once it holds parameters and, when forces are asked for,
    appends one entry to the force buffer. *)
Record TestKernel := mkTestKernel {
  tk_parameters : option GayBerneForce;
  tk_refreshed : nat
}.

Definition test_energy (k : TestKernel) : float :=
  match tk_parameters k with
  | Some _ => 2.5%float
  | None => fzero
  end.

Global Instance TestBackend : Backend TestKernel := {|
  Name := "CalcGayBerneForce";
  createKernel := fun _ _ => Ok (mkTestKernel None 0);
  kernel_initialize := fun _ f k => (Ok tt, mkTestKernel (Some f) (tk_refreshed k));
  kernel_execute := fun ctx includeForces includeEnergy k =>
    (Ok (if includeEnergy then test_energy k else fzero), k,
     if includeForces then ctx_forces ctx ++ [mkVec3 fzero fzero fzero] else ctx_forces ctx);
  kernel_copyParametersToContext := fun _ f k =>
    (Ok tt, mkTestKernel (Some f) (S (tk_refreshed k)))
|}.

(** ** Sample descriptions *)

Definition unit_box (edge : float) : Vec3 * Vec3 * Vec3 :=
  (mkVec3 edge fzero fzero, mkVec3 fzero edge fzero, mkVec3 fzero fzero edge).

Definition sphere (sigma : float) : ParticleInfo :=
  mkParticle sigma 1%float (-1) (-1) 1%float 1%float 1%float 1%float 1%float 1%float.

(** Three valid particles, no exception, no cutoff. *)
Definition three_particles : GayBerneForce :=
  mkForce [sphere 1%float; sphere 1%float; sphere 1%float] [] NoCutoff 1%float 0%float false 0.

(** The same with [sigma = -1] for particle 2. *)
Definition negative_sigma : GayBerneForce :=
  setParticles [sphere 1%float; sphere 1%float; sphere (-1)%float] three_particles.

Definition three_system : System := mkSystem 3 (unit_box 2%float).

Definition fresh_world (f : GayBerneForce) : World TestKernel :=
  mkWorld f None (mkContext three_system []) [].

(** The world after a successful [initialize] on the valid description. *)
Definition bound_world : World TestKernel := snd (initialize (fresh_world three_particles)).

(** Valid particles with one exception between a particle and itself. *)
Definition self_exception : GayBerneForce :=
  setExceptions [mkException 1 1 1%float 1%float] three_particles.

(** An exception for (0,2) declared again as (2,0). *)
Definition swapped_duplicate : GayBerneForce :=
  setExceptions [mkException 0 2 1%float 1%float; mkException 0 1 1%float 1%float;
                 mkException 2 0 1%float 1%float] three_particles.

(** Switching on with a switching distance beyond the cutoff, and a negative
    sigma for particle 2. *)
Definition bad_switching_and_sigma : GayBerneForce :=
  mkForce (particles negative_sigma) [] CutoffNonPeriodic 1%float 2%float true 0.

(** Periodic cutoff 1.5 (to be used in a box of edge 2). *)
Definition periodic_cutoff_1_5 : GayBerneForce :=
  mkForce (particles three_particles) [] CutoffPeriodic 1.5%float 0%float false 0.

(** ** The order of the checks, as a specification

    The checks laid out as one list in the fixed order: particle count,
    switching distance, then for each particle in index order its six checks,
    then for each exception in declaration order its five checks (the
    duplicate check is against all the exceptions declared before it), then
    the periodic box.  The violation reported is that of the first check of
    the list that fails. *)

(** Two exceptions name the same unordered pair. *)
Definition same_pair (e e' : ExceptionInfo) : bool :=
  ((e_particle1 e =? e_particle1 e') && (e_particle2 e =? e_particle2 e'))
  || ((e_particle1 e =? e_particle2 e') && (e_particle2 e =? e_particle1 e')).

Definition ordered_particle_checks (n : Z) (p : ParticleInfo) : list (Result unit) :=
  [ throw_if ((p_xparticle p <? -1) || (p_xparticle p >=? n)) (IllegalXParticle (p_xparticle p));
    throw_if ((p_yparticle p <? -1) || (p_yparticle p >=? n)) (IllegalYParticle (p_yparticle p));
    throw_if (flt (p_sigma p) fzero) ParticleSigmaNegative;
    throw_if (flt (p_epsilon p) fzero) ParticleEpsilonNegative;
    throw_if (fle (p_rx p) fzero || fle (p_ry p) fzero || fle (p_rz p) fzero)
             ParticleRadiiNotPositive;
    throw_if (fle (p_ex p) fzero || fle (p_ey p) fzero || fle (p_ez p) fzero)
             ParticleScaleNotPositive ].

Definition ordered_exception_checks (n : Z) (earlier : list ExceptionInfo) (e : ExceptionInfo)
  : list (Result unit) :=
  [ throw_if ((e_particle1 e <? 0) || (e_particle1 e >=? n))
             (IllegalExceptionParticle (e_particle1 e));
    throw_if ((e_particle2 e <? 0) || (e_particle2 e >=? n))
             (IllegalExceptionParticle (e_particle2 e));
    throw_if (existsb (same_pair e) earlier)
             (MultipleExceptions (e_particle1 e) (e_particle2 e));
    throw_if (flt (e_sigma e) fzero) ExceptionSigmaNegative;
    throw_if (flt (e_epsilon e) fzero) ExceptionEpsilonNegative ].

Fixpoint ordered_exceptions_checks (n : Z) (earlier es : list ExceptionInfo)
  : list (Result unit) :=
  match es with
  | [] => []
  | e :: es' =>
      ordered_exception_checks n earlier e ++ ordered_exceptions_checks n (earlier ++ [e]) es'
  end.

Definition ordered_checks (owner : GayBerneForce) (system : System) : list (Result unit) :=
  [ throw_if (negb (getNumParticles owner =? sys_numParticles system)) ParticleCountMismatch ]
  ++ [ check_switching owner ]
  ++ concat (map (ordered_particle_checks (getNumParticles owner)) (particles owner))
  ++ ordered_exceptions_checks (getNumParticles owner) [] (exceptions owner)
  ++ [ check_periodic_box owner system ].

Fixpoint first_violation (checks : list (Result unit)) : Result unit :=
  match checks with
  | [] => Ok tt
  | Ok _ :: checks' => first_violation checks'
  | Throw e :: _ => Throw e
  end.

(** The sets of seen pairs hold exactly the unordered pairs of the exceptions
    in [earlier]. *)
Definition seen_agrees (n : Z) (seen : list (gset Z)) (earlier : list ExceptionInfo) : Prop :=
  length seen = Z.to_nat n
  /\ forall a b : Z, 0 <= a < n ->
       (b ∈ seen !!! Z.to_nat a <->
        exists e, e ∈ earlier /\
          ((e_particle1 e = a /\ e_particle2 e = b) \/ (e_particle1 e = b /\ e_particle2 e = a))).

(** Every exception of the list has both indices in [0, n). *)
Definition exceptions_in_range (n : Z) (es : list ExceptionInfo) : Prop :=
  forall e, e ∈ es -> (0 <= e_particle1 e < n) /\ (0 <= e_particle2 e < n).

(** A 32-bit [int]. *)
Definition is_int (z : Z) : Prop := - 2 ^ 31 <= z < 2 ^ 31.

(** ** What the checks accept and what they report, stated directly *)

(** A particle that passes the six tests of lines 65-84. *)
Definition particle_ok (n : Z) (p : ParticleInfo) : Prop :=
  -1 <= p_xparticle p < n
  /\ -1 <= p_yparticle p < n
  /\ flt (p_sigma p) fzero = false
  /\ flt (p_epsilon p) fzero = false
  /\ (fle (p_rx p) fzero = false /\ fle (p_ry p) fzero = false /\ fle (p_rz p) fzero = false)
  /\ (fle (p_ex p) fzero = false /\ fle (p_ey p) fzero = false /\ fle (p_ez p) fzero = false).

(** An exception that passes the bounds and sign tests of lines 92-110. *)
Definition exception_ok (n : Z) (e : ExceptionInfo) : Prop :=
  0 <= e_particle1 e < n
  /\ 0 <= e_particle2 e < n
  /\ flt (e_sigma e) fzero = false
  /\ flt (e_epsilon e) fzero = false.

(** No two exceptions of the list name the same unordered pair. *)
Fixpoint distinct_pairs (es : list ExceptionInfo) : Prop :=
  match es with
  | [] => True
  | e :: es' => Forall (fun e' => same_pair e' e = false) es' /\ distinct_pairs es'
  end.

(** A description on which no test of lines 55-120 fires. *)
Definition specification_ok (owner : GayBerneForce) (system : System) : Prop :=
  getNumParticles owner = sys_numParticles system
  /\ (useSwitchingFunction owner = true -> switching_out_of_range owner = false)
  /\ Forall (particle_ok (getNumParticles owner)) (particles owner)
  /\ Forall (exception_ok (getNumParticles owner)) (exceptions owner)
  /\ distinct_pairs (exceptions owner)
  /\ (nonbondedMethod owner = CutoffPeriodic ->
      cutoff_exceeds_half_box (cutoffDistance owner) (sys_boxVectors system) = false).

(** The defect of the description that an exception of the checks names. *)
Definition defect_present (owner : GayBerneForce) (system : System) (e : OpenMMException)
  : Prop :=
  let n := getNumParticles owner in
  match e with
  | ParticleCountMismatch => n <> sys_numParticles system
  | BadSwitchingDistance =>
      useSwitchingFunction owner = true /\ switching_out_of_range owner = true
  | IllegalXParticle x =>
      exists p, p ∈ particles owner /\ p_xparticle p = x /\ (x < -1 \/ n <= x)
  | IllegalYParticle y =>
      exists p, p ∈ particles owner /\ p_yparticle p = y /\ (y < -1 \/ n <= y)
  | ParticleSigmaNegative =>
      exists p, p ∈ particles owner /\ flt (p_sigma p) fzero = true
  | ParticleEpsilonNegative =>
      exists p, p ∈ particles owner /\ flt (p_epsilon p) fzero = true
  | ParticleRadiiNotPositive =>
      exists p, p ∈ particles owner
        /\ (fle (p_rx p) fzero = true \/ fle (p_ry p) fzero = true \/ fle (p_rz p) fzero = true)
  | ParticleScaleNotPositive =>
      exists p, p ∈ particles owner
        /\ (fle (p_ex p) fzero = true \/ fle (p_ey p) fzero = true \/ fle (p_ez p) fzero = true)
  | IllegalExceptionParticle x =>
      exists ex, ex ∈ exceptions owner
        /\ (e_particle1 ex = x \/ e_particle2 ex = x) /\ (x < 0 \/ n <= x)
  | MultipleExceptions a b =>
      exists l1 e1 l2 e2 l3,
        exceptions owner = l1 ++ e1 :: l2 ++ e2 :: l3
        /\ same_pair e2 e1 = true /\ e_particle1 e2 = a /\ e_particle2 e2 = b
  | ExceptionSigmaNegative =>
      exists ex, ex ∈ exceptions owner /\ flt (e_sigma ex) fzero = true
  | ExceptionEpsilonNegative =>
      exists ex, ex ∈ exceptions owner /\ flt (e_epsilon ex) fzero = true
  | CutoffTooLarge =>
      nonbondedMethod owner = CutoffPeriodic
      /\ cutoff_exceeds_half_box (cutoffDistance owner) (sys_boxVectors system) = true
  | KernelException _ => False
  | NullKernel => False
  end.


(** A particle and an exception with every double replaced by NaN. *)
Definition nan_particle (p : ParticleInfo) : ParticleInfo :=
  mkParticle nan nan (p_xparticle p) (p_yparticle p) nan nan nan nan nan nan.
Definition nan_exception (e : ExceptionInfo) : ExceptionInfo :=
  mkException (e_particle1 e) (e_particle2 e) nan nan.

(** [setForceGroup] of the description. *)
Definition setForceGroup (g : Z) (f : GayBerneForce) : GayBerneForce :=
  mkForce (particles f) (exceptions f) (nonbondedMethod f) (cutoffDistance f)
          (switchingDistance f) (useSwitchingFunction f) g.

(** * Properties *)

(** ** Evaluation on the sample descriptions *)

Example three_particles_valid : checkSpecification three_particles three_system = Ok tt.
Proof. vm_compute. reflexivity. Qed.

Example negative_sigma_rejected :
  checkSpecification negative_sigma three_system = Throw ParticleSigmaNegative.
Proof. vm_compute. reflexivity. Qed.

Example self_exception_accepted : checkSpecification self_exception three_system = Ok tt.
Proof. vm_compute. reflexivity. Qed.

Example swapped_duplicate_rejected :
  checkSpecification swapped_duplicate three_system = Throw (MultipleExceptions 2 0).
Proof. vm_compute. reflexivity. Qed.

Example bad_switching_reported_first :
  checkSpecification bad_switching_and_sigma three_system = Throw BadSwitchingDistance.
Proof. vm_compute. reflexivity. Qed.

Example periodic_cutoff_rejected :
  checkSpecification periodic_cutoff_1_5 three_system = Throw CutoffTooLarge.
Proof. vm_compute. reflexivity. Qed.

Example duplicate_message :
  what "too large" (MultipleExceptions 2 0)
  = "GayBerneForce: Multiple exceptions are specified for particles 2 and 0"%string.
Proof. vm_compute. reflexivity. Qed.

Example bound_world_value :
  initialize (fresh_world three_particles)
  = (Ok tt,
     mkWorld three_particles (Some (mkTestKernel (Some three_particles) 0))
             (mkContext three_system [])
             [CreateKernel "CalcGayBerneForce"; KernelInitialize]).
Proof. vm_compute. reflexivity. Qed.

Example initialize_negative_sigma :
  initialize (fresh_world negative_sigma)
  = (Throw ParticleSigmaNegative,
     mkWorld negative_sigma (Some (mkTestKernel None 0)) (mkContext three_system [])
             [CreateKernel "CalcGayBerneForce"]).
Proof. vm_compute. reflexivity. Qed.

(** ** The result monad and the first failing check *)

Lemma rbind_Ok_inv {A B} (r : Result A) (k : A -> Result B) (b : B) :
  rbind r k = Ok b -> exists a, r = Ok a /\ k a = Ok b.
Proof. destruct r as [a|e]; simpl; [eauto | discriminate]. Qed.

Lemma throw_if_false e : throw_if false e = Ok tt.
Proof. reflexivity. Qed.

Lemma throw_if_true e : throw_if true e = Throw e.
Proof. reflexivity. Qed.

Lemma throw_if_Ok c e : throw_if c e = Ok tt -> c = false.
Proof. destruct c; [discriminate | reflexivity]. Qed.

Lemma throw_if_Throw c e e' : throw_if c e = Throw e' -> c = true /\ e' = e.
Proof. destruct c; simpl; [intros [= ->]; auto | discriminate]. Qed.

Lemma first_violation_app (cs cs' : list (Result unit)) :
  first_violation (cs ++ cs') = rbind (first_violation cs) (fun _ => first_violation cs').
Proof.
  induction cs as [|[[]|e] cs IH]; simpl; auto.
Qed.

Lemma first_violation_elem e cs : Throw e ∈ cs -> first_violation cs <> Ok tt.
Proof.
  induction cs as [|[[]|e'] cs IH]; simpl; intros Hin.
  - inversion Hin.
  - apply IH. apply elem_of_cons in Hin as [Heq|Hin]; [discriminate | assumption].
  - discriminate.
Qed.

Lemma first_violation_all_Ok cs :
  Forall (fun c => c = Ok tt) cs -> first_violation cs = Ok tt.
Proof. induction 1 as [|c cs -> _ IH]; simpl; auto. Qed.

(** ** Particles *)

Lemma check_particle_ordered n p :
  check_particle n p = first_violation (ordered_particle_checks n p).
Proof.
  unfold check_particle, ordered_particle_checks; simpl.
  repeat match goal with
         | |- context [throw_if ?c ?e] => destruct c; simpl; try reflexivity
         end.
Qed.

Lemma check_particles_ordered n ps :
  check_particles n ps = first_violation (concat (map (ordered_particle_checks n) ps)).
Proof.
  induction ps as [|p ps IH]; [reflexivity|].
  cbn [check_particles map concat].
  rewrite first_violation_app, <- check_particle_ordered, IH. reflexivity.
Qed.

(** ** Exceptions and the sets of seen pairs *)

Lemma seen_agrees_empty n : seen_agrees n (replicate (Z.to_nat n) ∅) [].
Proof.
  split; [apply length_replicate|].
  intros a b Ha. rewrite lookup_total_replicate_2 by lia.
  split; [set_solver|]. intros (e & He & _). inversion He.
Qed.

Lemma length_seen_insert i j seen : length (seen_insert i j seen) = length seen.
Proof. apply length_alter. Qed.

Lemma elem_of_seen_insert (i j a b : Z) (seen : list (gset Z)) :
  0 <= i -> 0 <= a -> (Z.to_nat i < length seen)%nat ->
  b ∈ seen_insert i j seen !!! Z.to_nat a <->
  (i = a /\ j = b) \/ b ∈ seen !!! Z.to_nat a.
Proof.
  intros Hi Ha Hlen. unfold seen_insert. rewrite list_lookup_total_alter.
  destruct (decide _) as [[Heq _]|Hne].
  - apply Z2Nat.inj in Heq; try lia. subst a.
    rewrite elem_of_union, elem_of_singleton. intuition congruence.
  - split; [auto|]. intros [[-> _]|H]; [|exact H]. exfalso. apply Hne. auto.
Qed.

Lemma seen_agrees_insert n seen earlier e :
  seen_agrees n seen earlier ->
  0 <= e_particle1 e < n -> 0 <= e_particle2 e < n ->
  seen_agrees n (seen_insert (e_particle2 e) (e_particle1 e)
                   (seen_insert (e_particle1 e) (e_particle2 e) seen))
              (earlier ++ [e]).
Proof.
  intros [Hlen Hag] H1 H2. split.
  - rewrite !length_seen_insert. exact Hlen.
  - intros a b Ha.
    rewrite elem_of_seen_insert by (rewrite ?length_seen_insert; lia).
    rewrite elem_of_seen_insert by lia.
    rewrite (Hag a b Ha). split.
    + intros [[<- <-]|[[<- <-]|(e' & He' & Hp)]].
      * exists e. split; [apply elem_of_app; right; apply list_elem_of_singleton; reflexivity | auto].
      * exists e. split; [apply elem_of_app; right; apply list_elem_of_singleton; reflexivity | auto].
      * exists e'. split; [apply elem_of_app; left; exact He' | auto].
    + intros (e' & He' & Hp). apply elem_of_app in He' as [He'|He'].
      * right. right. eauto.
      * apply list_elem_of_singleton in He'. subst e'.
        destruct Hp as [[<- <-]|[<- <-]]; auto.
Qed.

Lemma same_pair_true e e' :
  same_pair e e' = true <->
  (e_particle1 e' = e_particle1 e /\ e_particle2 e' = e_particle2 e)
  \/ (e_particle1 e' = e_particle2 e /\ e_particle2 e' = e_particle1 e).
Proof. unfold same_pair. lia. Qed.


Lemma existsb_same_pair e earlier :
  existsb (same_pair e) earlier = true <->
  exists e', e' ∈ earlier /\
    ((e_particle1 e' = e_particle1 e /\ e_particle2 e' = e_particle2 e)
     \/ (e_particle1 e' = e_particle2 e /\ e_particle2 e' = e_particle1 e)).
Proof.
  rewrite existsb_exists. split; intros (e' & Hin & H); exists e'.
  - split; [apply list_elem_of_In, Hin | apply same_pair_true, H].
  - split; [apply list_elem_of_In, Hin | apply same_pair_true, H].
Qed.

(** On in-range indices the two [count] tests of line 99 say that the pair
    was declared before, in either orientation. *)
Lemma seen_count_existsb n seen earlier e :
  seen_agrees n seen earlier ->
  0 <= e_particle1 e < n -> 0 <= e_particle2 e < n ->
  seen_count seen (e_particle1 e) (e_particle2 e)
  || seen_count seen (e_particle2 e) (e_particle1 e)
  = existsb (same_pair e) earlier.
Proof.
  intros [_ Hag] H1 H2. apply eq_true_iff_eq.
  rewrite orb_true_iff, existsb_same_pair. unfold seen_count.
  rewrite !bool_decide_eq_true, (Hag _ (e_particle2 e) H1), (Hag _ (e_particle1 e) H2).
  split.
  - intros [(e' & Hin & H)|(e' & Hin & H)]; exists e'; (split; [exact Hin | tauto]).
  - intros (e' & Hin & H). left. exists e'. split; [exact Hin | tauto].
Qed.

Lemma check_exception_ordered n seen earlier e :
  seen_agrees n seen earlier ->
  rbind (check_exception n seen e) (fun _ => Ok tt)
  = first_violation (ordered_exception_checks n earlier e).
Proof.
  intros Hag. unfold check_exception, ordered_exception_checks. simpl.
  destruct (_ || _) eqn:Hb1; simpl; [reflexivity|].
  destruct ((e_particle2 e <? 0) || _) eqn:Hb2; simpl; [reflexivity|].
  rewrite (seen_count_existsb n seen earlier e Hag) by lia.
  destruct (existsb _ _); simpl; [reflexivity|].
  destruct (flt (e_sigma e) fzero); simpl; [reflexivity|].
  destruct (flt (e_epsilon e) fzero); simpl; reflexivity.
Qed.

Lemma check_exception_Ok n seen e seen' :
  check_exception n seen e = Ok seen' ->
  (0 <= e_particle1 e < n) /\ (0 <= e_particle2 e < n)
  /\ seen_count seen (e_particle1 e) (e_particle2 e)
     || seen_count seen (e_particle2 e) (e_particle1 e) = false
  /\ flt (e_sigma e) fzero = false /\ flt (e_epsilon e) fzero = false
  /\ seen' = seen_insert (e_particle2 e) (e_particle1 e)
               (seen_insert (e_particle1 e) (e_particle2 e) seen).
Proof.
  unfold check_exception. simpl.
  destruct (_ || _) eqn:Hb1; simpl; [discriminate|].
  destruct ((e_particle2 e <? 0) || _) eqn:Hb2; simpl; [discriminate|].
  destruct (seen_count _ _ _ || _) eqn:Hb3; simpl; [discriminate|].
  destruct (flt (e_sigma e) fzero); simpl; [discriminate|].
  destruct (flt (e_epsilon e) fzero); simpl; [discriminate|].
  intros [= <-]. repeat split; auto; lia.
Qed.

Lemma check_exceptions_ordered n es : forall seen earlier,
  seen_agrees n seen earlier ->
  rbind (check_exceptions n seen es) (fun _ => Ok tt)
  = first_violation (ordered_exceptions_checks n earlier es).
Proof.
  induction es as [|e es IH]; intros seen earlier Hag; [reflexivity|].
  cbn [check_exceptions ordered_exceptions_checks].
  rewrite first_violation_app, <- (check_exception_ordered n seen earlier e Hag).
  destruct (check_exception n seen e) as [seen'|err] eqn:He; simpl; [|reflexivity].
  apply check_exception_Ok in He as (H1 & H2 & _ & _ & _ & ->).
  apply IH, seen_agrees_insert; assumption.
Qed.

Lemma check_exceptions_app n es1 es2 : forall seen,
  check_exceptions n seen (es1 ++ es2)
  = rbind (check_exceptions n seen es1) (fun seen' => check_exceptions n seen' es2).
Proof.
  induction es1 as [|e es1 IH]; intros seen; simpl; [reflexivity|].
  destruct (check_exception n seen e); simpl; auto.
Qed.

Lemma check_exceptions_Ok n es : forall seen earlier seen',
  seen_agrees n seen earlier ->
  check_exceptions n seen es = Ok seen' ->
  seen_agrees n seen' (earlier ++ es) /\ exceptions_in_range n es.
Proof.
  induction es as [|e es IH]; intros seen earlier seen' Hag; simpl.
  - intros [= <-]. rewrite app_nil_r. split; [exact Hag|]. intros e He. inversion He.
  - intros H. apply rbind_Ok_inv in H as (s1 & He & Hes).
    apply check_exception_Ok in He as (H1 & H2 & _ & _ & _ & ->).
    destruct (IH _ (earlier ++ [e]) _ (seen_agrees_insert _ _ _ _ Hag H1 H2) Hes) as [Hag' Hr].
    rewrite <- app_assoc in Hag'. split; [exact Hag'|].
    intros e' He'. apply elem_of_cons in He' as [->|He']; auto.
Qed.

(** ** The whole specification check *)

Lemma checkSpecification_ordered owner system :
  checkSpecification owner system = first_violation (ordered_checks owner system).
Proof.
  unfold checkSpecification, check_before_box, ordered_checks.
  rewrite !first_violation_app, <- check_particles_ordered.
  rewrite <- (check_exceptions_ordered _ _ _ [] (seen_agrees_empty _)).
  simpl.
  destruct (throw_if _ ParticleCountMismatch) as [[]|]; simpl; [|reflexivity].
  destruct (check_switching owner) as [[]|]; simpl; [|reflexivity].
  destruct (check_particles _ _) as [[]|]; simpl; [|reflexivity].
  destruct (check_exceptions _ _ _); simpl; [|reflexivity].
  destruct (check_periodic_box owner system) as [[]|]; reflexivity.
Qed.

Lemma check_before_box_Ok owner system :
  check_before_box owner system = Ok tt ->
  getNumParticles owner = sys_numParticles system
  /\ check_switching owner = Ok tt
  /\ check_particles (getNumParticles owner) (particles owner) = Ok tt
  /\ exists seen,
       check_exceptions (getNumParticles owner)
         (replicate (Z.to_nat (getNumParticles owner)) ∅) (exceptions owner) = Ok seen
       /\ seen_agrees (getNumParticles owner) seen (exceptions owner)
       /\ exceptions_in_range (getNumParticles owner) (exceptions owner).
Proof.
  unfold check_before_box. intros H.
  apply rbind_Ok_inv in H as ([] & Hc & H). apply throw_if_Ok in Hc.
  apply rbind_Ok_inv in H as ([] & Hs & H).
  apply rbind_Ok_inv in H as ([] & Hp & H).
  apply rbind_Ok_inv in H as (seen & He & _).
  split; [apply negb_false_iff in Hc; lia|].
  do 2 (split; [assumption|]).
  exists seen. split; [assumption|].
  apply (check_exceptions_Ok _ _ _ [] seen (seen_agrees_empty _) He).
Qed.

(** The checks before the box, when the exceptions declared so far pass and
    more follow: what remains is the loop over the exceptions that follow. *)
Lemma check_before_box_more_exceptions owner system es rest :
  check_before_box (setExceptions es owner) system = Ok tt ->
  exists seen,
    seen_agrees (getNumParticles owner) seen es
    /\ exceptions_in_range (getNumParticles owner) es
    /\ check_before_box (setExceptions (es ++ rest) owner) system
       = rbind (check_exceptions (getNumParticles owner) seen rest) (fun _ => Ok tt).
Proof.
  intros H. apply check_before_box_Ok in H as (Hn & Hs & Hp & seen & He & Hag & Hr).
  change (getNumParticles (setExceptions es owner)) with (getNumParticles owner) in *.
  change (particles (setExceptions es owner)) with (particles owner) in *.
  change (exceptions (setExceptions es owner)) with es in *.
  exists seen. do 2 (split; [assumption|]).
  unfold check_before_box.
  change (getNumParticles (setExceptions (es ++ rest) owner)) with (getNumParticles owner).
  change (particles (setExceptions (es ++ rest) owner)) with (particles owner).
  change (exceptions (setExceptions (es ++ rest) owner)) with (es ++ rest).
  change (check_switching (setExceptions (es ++ rest) owner)) with (check_switching owner).
  change (check_switching (setExceptions es owner)) with (check_switching owner) in Hs.
  rewrite (proj2 (Z.eqb_eq _ _) Hn), Hs, Hp, check_exceptions_app, He. reflexivity.
Qed.

(** No check other than that of lines 57-60 reports the switching distance. *)
Lemma check_particles_not_switching n ps :
  check_particles n ps <> Throw BadSwitchingDistance.
Proof.
  rewrite check_particles_ordered.
  induction ps as [|p ps IH]; [discriminate|].
  cbn [map concat]. rewrite first_violation_app.
  unfold ordered_particle_checks at 1. simpl.
  repeat match goal with
         | |- context [throw_if ?c ?e] => destruct c; simpl; try discriminate
         end.
  exact IH.
Qed.

Lemma check_exceptions_not_switching n es : forall seen,
  check_exceptions n seen es <> Throw BadSwitchingDistance.
Proof.
  induction es as [|e es IH]; intros seen; simpl; [discriminate|].
  destruct (check_exception n seen e) as [seen'|err] eqn:He; simpl; [apply IH|].
  revert He. unfold check_exception. simpl.
  repeat match goal with
         | |- context [throw_if ?c ?e] => destruct c; simpl; try congruence
         end.
Qed.

Lemma check_periodic_box_not_switching owner system :
  check_periodic_box owner system <> Throw BadSwitchingDistance.
Proof.
  unfold check_periodic_box.
  destruct (nonbondedMethod owner); try discriminate.
  destruct (cutoff_exceeds_half_box _ _); discriminate.
Qed.

(** ** 32-bit masks *)

Lemma land_pow2 a g :
  0 <= g -> Z.land a (2 ^ g) = if Z.testbit a g then 2 ^ g else 0.
Proof.
  intros Hg. apply Z.bits_inj'. intros n Hn.
  rewrite Z.land_spec, Z.pow2_bits_eqb by lia.
  destruct (Z.eqb_spec g n) as [->|Hne].
  - destruct (Z.testbit a n) eqn:Ha; simpl.
    + rewrite Z.pow2_bits_true by lia. reflexivity.
    + rewrite Z.bits_0. reflexivity.
  - rewrite andb_false_r. destruct (Z.testbit a g).
    + rewrite Z.pow2_bits_false by lia. reflexivity.
    + rewrite Z.bits_0. reflexivity.
Qed.

Lemma testbit_sign a : is_int a -> Z.testbit a 31 = (a <? 0).
Proof.
  unfold is_int. intros Ha. rewrite Z.testbit_odd, Z.shiftr_div_pow2 by lia.
  change (2 ^ 31) with 2147483648 in *.
  destruct (Z.ltb_spec a 0).
  - rewrite <- (Z.div_unique a 2147483648 (-1) (a + 2147483648)) by lia. reflexivity.
  - rewrite Z.div_small by lia. reflexivity.
Qed.

Lemma land_sign a : is_int a -> (Z.land a (- 2 ^ 31) =? 0) = negb (a <? 0).
Proof.
  intros Ha. destruct (Z.ltb_spec a 0) as [Hneg|Hpos]; simpl.
  - apply Z.eqb_neq. assert (Z.land a (- 2 ^ 31) < 0); [|lia].
    apply Z.land_neg. split; [lia|]. reflexivity.
  - apply Z.eqb_eq. apply Z.bits_inj'. intros n Hn.
    rewrite Z.land_spec, Z.bits_0.
    destruct (Z.ltb_spec n 31).
    + change (- 2 ^ 31) with (Z.shiftl (-1) 31).
      rewrite Z.shiftl_spec_low by lia. apply andb_false_r.
    + assert (Z.testbit a n = false) as ->; [|reflexivity].
      destruct (Z.eq_dec a 0) as [->|Hne]; [apply Z.bits_0|].
      apply Z.bits_above_log2; [lia|].
      apply Z.log2_lt_pow2; [lia|].
      unfold is_int in Ha. apply Z.lt_le_trans with (2 ^ 31); [lia|].
      apply Z.pow_le_mono_r; lia.
Qed.

(** The test of line 125 reads bit [group] of the mask. *)
Lemma group_bit_test groups group :
  is_int groups -> 0 <= group < 32 ->
  negb (Z.land groups (int_shl 1 group) =? 0) = Z.testbit groups group.
Proof.
  intros Hint Hg. unfold int_shl. rewrite Z.shiftl_1_l.
  destruct (Z.eq_dec group 31) as [->|Hne].
  - change (int_wrap (2 ^ 31)) with (- 2 ^ 31).
    rewrite land_sign, testbit_sign by assumption. apply negb_involutive.
  - assert (int_wrap (2 ^ group) = 2 ^ group) as ->.
    { unfold int_wrap.
      assert (0 < 2 ^ group) by (apply Z.pow_pos_nonneg; lia).
      assert (2 ^ group < 2 ^ 31) by (apply Z.pow_lt_mono_r; lia).
      rewrite Z.mod_small; lia. }
    rewrite land_pow2 by lia.
    assert (0 < 2 ^ group) by (apply Z.pow_pos_nonneg; lia).
    destruct (Z.testbit groups group); simpl.
    + apply negb_true_iff, Z.eqb_neq. lia.
    + reflexivity.
Qed.

Lemma setExceptions_exceptions owner : setExceptions (exceptions owner) owner = owner.
Proof. destruct owner; reflexivity. Qed.

Lemma existsb_same_pair_middle e2 l1 e1 l2 :
  same_pair e2 e1 = true -> existsb (same_pair e2) (l1 ++ e1 :: l2) = true.
Proof.
  intros H. apply existsb_exists. exists e1. split; [|exact H].
  apply in_or_app. right. left. reflexivity.
Qed.

Lemma same_pair_in_range n e e' :
  same_pair e e' = true ->
  0 <= e_particle1 e' < n /\ 0 <= e_particle2 e' < n ->
  0 <= e_particle1 e < n /\ 0 <= e_particle2 e < n.
Proof. unfold same_pair. lia. Qed.

(** ** The claims about the checks *)

(** C3 (as amended): the checks require the two indices of an exception to be
    valid, not to be distinct.  When the exceptions declared before [e] pass,
    [e] is rejected for an index outside [0, numParticles), the first index
    being tested first; and an exception between a particle in range and
    itself, not declared before and with no negative sigma or epsilon, adds no
    violation: the description is checked as if [e] were not there. *)
Theorem exception_indices_valid_not_distinct owner system es e :
  check_before_box (setExceptions es owner) system = Ok tt ->
  (e_particle1 e < 0 \/ getNumParticles owner <= e_particle1 e ->
   checkSpecification (setExceptions (es ++ [e]) owner) system
   = Throw (IllegalExceptionParticle (e_particle1 e)))
  /\ (0 <= e_particle1 e < getNumParticles owner ->
      e_particle2 e < 0 \/ getNumParticles owner <= e_particle2 e ->
      checkSpecification (setExceptions (es ++ [e]) owner) system
      = Throw (IllegalExceptionParticle (e_particle2 e)))
  /\ (0 <= e_particle1 e < getNumParticles owner ->
      e_particle2 e = e_particle1 e ->
      existsb (same_pair e) es = false ->
      flt (e_sigma e) fzero = false ->
      flt (e_epsilon e) fzero = false ->
      checkSpecification (setExceptions (es ++ [e]) owner) system
      = checkSpecification (setExceptions es owner) system).
Proof.
  intros Hes.
  destruct (check_before_box_more_exceptions owner system es [e] Hes)
    as (seen & Hag & _ & Heq).
  unfold checkSpecification. rewrite Heq, Hes.
  cbn [check_exceptions]. unfold check_exception. cbv zeta.
  split; [|split].
  - intros Hout.
    assert ((e_particle1 e <? 0) || (e_particle1 e >=? getNumParticles owner) = true)
      as -> by lia.
    reflexivity.
  - intros Hin Hout.
    assert ((e_particle1 e <? 0) || (e_particle1 e >=? getNumParticles owner) = false)
      as -> by lia.
    assert ((e_particle2 e <? 0) || (e_particle2 e >=? getNumParticles owner) = true)
      as -> by lia.
    reflexivity.
  - intros Hin Hsame Hnew Hsigma Hepsilon.
    assert ((e_particle1 e <? 0) || (e_particle1 e >=? getNumParticles owner) = false)
      as -> by lia.
    assert ((e_particle2 e <? 0) || (e_particle2 e >=? getNumParticles owner) = false)
      as -> by lia.
    rewrite (seen_count_existsb _ _ _ e Hag) by lia.
    rewrite Hnew, Hsigma, Hepsilon. reflexivity.
Qed.

Lemma exception_indices_valid_not_distinct_witness :
  checkSpecification (setExceptions ([] ++ [mkException 1 1 1%float 1%float]) three_particles)
                     three_system
  = checkSpecification (setExceptions [] three_particles) three_system.
Proof.
  apply (exception_indices_valid_not_distinct three_particles three_system []
           (mkException 1 1 1%float 1%float)).
  - vm_compute. reflexivity.
  - vm_compute. split; [discriminate | reflexivity].
  - reflexivity.
  - reflexivity.
  - reflexivity.
  - reflexivity.
Defined.

(** C3, the claim as stated fails: the sample description has an exception
    whose two indices are both 1, in range, and passes every check. *)
Lemma self_exception_not_rejected :
  (exists e, e ∈ exceptions self_exception
             /\ e_particle1 e = e_particle2 e
             /\ 0 <= e_particle1 e < getNumParticles self_exception)
  /\ checkSpecification self_exception three_system = Ok tt.
Proof.
  split; [|exact self_exception_accepted].
  exists (mkException 1 1 1%float 1%float).
  split; [apply list_elem_of_singleton; reflexivity|].
  vm_compute. repeat split; discriminate.
Qed.

(** C4: the violation reported is that of the first failing check in the
    fixed order: particle count, switching distance, the particles in index
    order (xparticle, yparticle, sigma, epsilon, radii, scale factors), the
    exceptions in declaration order (first index, second index, duplicate
    pair, sigma, epsilon), the periodic box last.  In particular, on a
    description with the right particle count whose switching distance is out
    of range, the switching distance is what is reported, whatever the
    particles are (so also when one of them has a negative sigma). *)
Theorem first_violation_reported owner system :
  checkSpecification owner system = first_violation (ordered_checks owner system)
  /\ (getNumParticles owner = sys_numParticles system ->
      useSwitchingFunction owner = true ->
      switching_out_of_range owner = true ->
      checkSpecification owner system = Throw BadSwitchingDistance).
Proof.
  split; [apply checkSpecification_ordered|].
  intros Hn Hsw Hout. unfold checkSpecification, check_before_box, check_switching.
  rewrite (proj2 (Z.eqb_eq _ _) Hn), Hsw, Hout. reflexivity.
Qed.

Lemma first_violation_reported_witness :
  Exists (fun p => flt (p_sigma p) fzero = true) (particles bad_switching_and_sigma)
  /\ checkSpecification bad_switching_and_sigma three_system = Throw BadSwitchingDistance.
Proof.
  split.
  - apply Exists_cons_tl, Exists_cons_tl, Exists_cons_hd. reflexivity.
  - apply (proj2 (first_violation_reported bad_switching_and_sigma three_system));
      reflexivity.
Defined.

(** C6: when an exception for a pair is followed, later in the list, by an
    exception for the same unordered pair, in the same or the swapped
    orientation, the description is never accepted; and when the checks pass
    on everything declared before the later exception, the violation reported
    is the duplicate, for the two indices of the later exception. *)
Theorem duplicate_pair_rejected owner system l1 e1 l2 e2 l3 :
  exceptions owner = l1 ++ e1 :: l2 ++ e2 :: l3 ->
  same_pair e2 e1 = true ->
  checkSpecification owner system <> Ok tt
  /\ (check_before_box (setExceptions (l1 ++ e1 :: l2) owner) system = Ok tt ->
      checkSpecification owner system
      = Throw (MultipleExceptions (e_particle1 e2) (e_particle2 e2))).
Proof.
  intros Hex Hsame.
  assert (exceptions owner = (l1 ++ e1 :: l2) ++ e2 :: l3) as Hex'
    by (rewrite Hex, <- app_assoc; reflexivity).
  pose proof (existsb_same_pair_middle e2 l1 e1 l2 Hsame) as Hdup.
  split.
  - intros Hok. unfold checkSpecification in Hok.
    apply rbind_Ok_inv in Hok as ([] & Hb & _).
    apply check_before_box_Ok in Hb as (_ & _ & _ & seen & He & _ & _).
    rewrite Hex', check_exceptions_app in He.
    apply rbind_Ok_inv in He as (s1 & H1 & H2).
    cbn [check_exceptions] in H2. apply rbind_Ok_inv in H2 as (s2 & H2 & _).
    apply check_exception_Ok in H2 as (Hr1 & Hr2 & Hcount & _).
    destruct (check_exceptions_Ok _ _ _ [] _ (seen_agrees_empty _) H1) as [Hag _].
    rewrite app_nil_l in Hag.
    rewrite (seen_count_existsb _ _ _ e2 Hag Hr1 Hr2) in Hcount. congruence.
  - intros Hes.
    destruct (check_before_box_more_exceptions owner system _ (e2 :: l3) Hes)
      as (seen & Hag & Hr & Heq).
    rewrite <- Hex', setExceptions_exceptions in Heq.
    unfold checkSpecification. rewrite Heq.
    assert (0 <= e_particle1 e2 < getNumParticles owner
            /\ 0 <= e_particle2 e2 < getNumParticles owner) as [Hr1 Hr2].
    { apply (same_pair_in_range _ e2 e1 Hsame), Hr.
      apply elem_of_app. right. apply elem_of_cons. left. reflexivity. }
    cbn [check_exceptions]. unfold check_exception. cbv zeta.
    assert ((e_particle1 e2 <? 0) || (e_particle1 e2 >=? getNumParticles owner) = false)
      as -> by lia.
    assert ((e_particle2 e2 <? 0) || (e_particle2 e2 >=? getNumParticles owner) = false)
      as -> by lia.
    rewrite (seen_count_existsb _ _ _ e2 Hag Hr1 Hr2), Hdup. reflexivity.
Qed.

Lemma duplicate_pair_rejected_witness :
  checkSpecification swapped_duplicate three_system <> Ok tt
  /\ checkSpecification swapped_duplicate three_system = Throw (MultipleExceptions 2 0).
Proof.
  destruct (duplicate_pair_rejected swapped_duplicate three_system
              [] (mkException 0 2 1%float 1%float)
              [mkException 0 1 1%float 1%float] (mkException 2 0 1%float 1%float) []
              eq_refl eq_refl) as [Hno Hdup].
  split; [exact Hno|]. apply Hdup. vm_compute. reflexivity.
Defined.

(** C7: with the periodic cutoff method and every earlier check passed, the
    specification is rejected, for the cutoff being too large, exactly when
    the cutoff is greater than half the x component of the first box vector,
    half the y component of the second or half the z component of the third
    (the witness below is the box of edge 2 with cutoff 1.5); with either of
    the two other methods the outcome does not depend on the box vectors. *)
Theorem periodic_cutoff_checked_last owner system :
  (nonbondedMethod owner = CutoffPeriodic ->
   check_before_box owner system = Ok tt ->
   checkSpecification owner system
   = (if cutoff_exceeds_half_box (cutoffDistance owner) (sys_boxVectors system)
      then Throw CutoffTooLarge else Ok tt)
   /\ (checkSpecification owner system <> Ok tt <->
       let '(a, b, c) := sys_boxVectors system in
       fgt (cutoffDistance owner) (PrimFloat.mul fhalf (vec_x a)) = true
       \/ fgt (cutoffDistance owner) (PrimFloat.mul fhalf (vec_y b)) = true
       \/ fgt (cutoffDistance owner) (PrimFloat.mul fhalf (vec_z c)) = true))
  /\ (nonbondedMethod owner <> CutoffPeriodic ->
      forall box,
        checkSpecification owner (setDefaultPeriodicBoxVectors box system)
        = checkSpecification owner system).
Proof.
  split.
  - intros Hm Hb.
    assert (checkSpecification owner system
            = (if cutoff_exceeds_half_box (cutoffDistance owner) (sys_boxVectors system)
               then Throw CutoffTooLarge else Ok tt)) as Heq.
    { unfold checkSpecification, check_periodic_box. rewrite Hb, Hm. reflexivity. }
    split; [exact Heq|]. rewrite Heq. unfold cutoff_exceeds_half_box.
    destruct (sys_boxVectors system) as [[a b] c].
    rewrite <- !orb_true_iff, <- orb_assoc.
    destruct (_ || _); split.
    + reflexivity.
    + intros _. discriminate.
    + intros H. contradiction H. reflexivity.
    + discriminate.
  - intros Hm box. unfold checkSpecification, check_periodic_box.
    destruct (nonbondedMethod owner); [reflexivity | reflexivity | contradiction].
Qed.

Lemma periodic_cutoff_checked_last_witness :
  sys_boxVectors three_system = unit_box 2%float
  /\ cutoffDistance periodic_cutoff_1_5 = 1.5%float
  /\ checkSpecification periodic_cutoff_1_5 three_system = Throw CutoffTooLarge.
Proof.
  split; [reflexivity|]. split; [reflexivity|].
  apply (proj1 (periodic_cutoff_checked_last periodic_cutoff_1_5 three_system)
           eq_refl eq_refl).
Defined.

(** C8: on a description with the right particle count, the switching
    distance violation is reported exactly when the switching function is in
    use and the switching distance is negative or not below the cutoff
    distance; when the switching function is not in use, the outcome does not
    depend on the switching distance. *)
Theorem switching_distance_checked owner system :
  getNumParticles owner = sys_numParticles system ->
  (checkSpecification owner system = Throw BadSwitchingDistance <->
   useSwitchingFunction owner = true
   /\ (flt (switchingDistance owner) fzero = true
       \/ fge (switchingDistance owner) (cutoffDistance owner) = true))
  /\ (useSwitchingFunction owner = false ->
      forall s,
        checkSpecification (setSwitchingDistance s owner) system
        = checkSpecification owner system).
Proof.
  intros Hn. split.
  - rewrite <- orb_true_iff. fold (switching_out_of_range owner).
    unfold checkSpecification, check_before_box, check_switching.
    rewrite (proj2 (Z.eqb_eq _ _) Hn). cbn [negb throw_if rbind].
    assert (rbind (rbind (check_particles (getNumParticles owner) (particles owner))
                    (fun _ => rbind (check_exceptions (getNumParticles owner)
                                       (replicate (Z.to_nat (getNumParticles owner)) ∅)
                                       (exceptions owner))
                                    (fun _ => Ok tt)))
                  (fun _ => check_periodic_box owner system)
            <> Throw BadSwitchingDistance) as Hrest.
    { destruct (check_particles _ _) as [[]|e] eqn:Hp; cbn [rbind];
        [|intros [= ->]; exact (check_particles_not_switching _ _ Hp)].
      destruct (check_exceptions _ _ _) as [seen|e] eqn:He; cbn [rbind];
        [|intros [= ->]; exact (check_exceptions_not_switching _ _ _ He)].
      apply check_periodic_box_not_switching. }
    destruct (useSwitchingFunction owner), (switching_out_of_range owner);
      cbn [throw_if rbind]; split; auto; try contradiction.
    all: intros [H1 H2]; discriminate.
  - intros Hsw s. unfold checkSpecification, check_before_box, check_switching.
    cbn [useSwitchingFunction setSwitchingDistance]. rewrite Hsw. reflexivity.
Qed.

Lemma switching_distance_checked_witness :
  checkSpecification bad_switching_and_sigma three_system = Throw BadSwitchingDistance
  /\ checkSpecification (setSwitchingDistance 7%float three_particles) three_system
     = checkSpecification three_particles three_system.
Proof.
  split.
  - apply (proj1 (switching_distance_checked bad_switching_and_sigma three_system eq_refl)).
    split; [reflexivity | right; reflexivity].
  - apply (proj2 (switching_distance_checked three_particles three_system eq_refl)).
    reflexivity.
Defined.

(** C10: when the method is not the periodic cutoff and the switching function
    is not in use, the outcome of the checks does not depend on the cutoff
    distance: replacing it by any double, negative ones included, changes
    nothing, so a description that passes still passes with a negative
    cutoff (the witness below is such a description). *)
Theorem cutoff_distance_not_examined owner system c :
  nonbondedMethod owner <> CutoffPeriodic ->
  useSwitchingFunction owner = false ->
  checkSpecification (setCutoffDistance c owner) system = checkSpecification owner system.
Proof.
  intros Hm Hsw. unfold checkSpecification, check_before_box, check_switching, check_periodic_box.
  cbn [useSwitchingFunction nonbondedMethod setCutoffDistance]. rewrite Hsw.
  destruct (nonbondedMethod owner); [reflexivity | reflexivity | contradiction].
Qed.

Lemma cutoff_distance_not_examined_witness :
  flt (cutoffDistance (setCutoffDistance (-1)%float three_particles)) fzero = true
  /\ checkSpecification (setCutoffDistance (-1)%float three_particles) three_system = Ok tt.
Proof.
  split; [reflexivity|].
  rewrite (cutoff_distance_not_examined three_particles three_system (-1)%float).
  - exact three_particles_valid.
  - discriminate.
  - reflexivity.
Defined.

(** ** The claims about the dispatcher *)

Section DispatcherFacts.
Context {K : Type} `{!Backend K}.

(** [initialize], statement by statement. *)
Lemma initialize_unfold (w : World K) :
  initialize w
  = match createKernel Name (context w) with
    | Throw e =>
        (Throw e, mkWorld (owner w) (kernel w) (context w) (calls w ++ [CreateKernel Name]))
    | Ok k =>
        match checkSpecification (owner w) (ctx_system (context w)) with
        | Throw e =>
            (Throw e, mkWorld (owner w) (Some k) (context w) (calls w ++ [CreateKernel Name]))
        | Ok _ =>
            call_kernel_initialize
              (mkWorld (owner w) (Some k) (context w) (calls w ++ [CreateKernel Name]))
        end
    end.
Proof.
  unfold initialize, call_createKernel, bind, record, get_context, get_owner,
    lift_result, assign_kernel. simpl.
  destruct (createKernel Name (context w)); [|reflexivity].
  destruct (checkSpecification _ _); reflexivity.
Qed.

(** [updateParametersInContext] on a world that holds a kernel. *)
Lemma updateParametersInContext_unfold (w : World K) (k : K) :
  kernel w = Some k ->
  updateParametersInContext w
  = match kernel_copyParametersToContext (context w) (owner w) k with
    | (Ok _, k') =>
        (Ok tt, mkWorld (owner w) (Some k') (context w)
                        (calls w ++ [KernelCopyParametersToContext; SystemChanged]))
    | (Throw e, k') =>
        (Throw e, mkWorld (owner w) (Some k') (context w)
                          (calls w ++ [KernelCopyParametersToContext]))
    end.
Proof.
  intros Hk.
  unfold updateParametersInContext, call_kernel_copyParametersToContext, systemChanged,
    bind, getAs, record, get_context, get_owner. rewrite Hk. simpl.
  destruct (kernel_copyParametersToContext (context w) (owner w) k) as [[[]|e] k'];
    unfold bind, assign_kernel, lift_result; simpl; [|reflexivity].
  rewrite <- app_assoc. reflexivity.
Qed.

(** C1 (as amended): when the description fails the checks, [initialize]
    throws the violation before the kernel is initialised, and after the
    kernel was created: the call of the platform's [createKernel] is the
    first statement, so once it has returned a kernel the dispatcher holds
    that kernel, on which no operation has been called, and the description
    and the context are as they were. *)
Theorem initialize_rejects_before_kernel_initialize (w : World K) (e : OpenMMException) (k : K) :
  checkSpecification (owner w) (ctx_system (context w)) = Throw e ->
  createKernel Name (context w) = Ok k ->
  initialize w
  = (Throw e, mkWorld (owner w) (Some k) (context w) (calls w ++ [CreateKernel Name])).
Proof.
  intros Hcheck Hcreate. rewrite initialize_unfold, Hcreate, Hcheck. reflexivity.
Qed.

(** C2 (as amended): [updateParametersInContext] checks nothing.  On a
    dispatcher that holds a kernel it hands the description, valid or not,
    to the kernel's [copyParametersToContext]; when that returns, the
    kernel's parameters are refreshed and the context is notified, and only
    what the kernel itself throws makes the update fail. *)
Theorem update_without_checks (w : World K) (k : K) :
  kernel w = Some k ->
  updateParametersInContext w
  = match kernel_copyParametersToContext (context w) (owner w) k with
    | (Ok _, k') =>
        (Ok tt, mkWorld (owner w) (Some k') (context w)
                        (calls w ++ [KernelCopyParametersToContext; SystemChanged]))
    | (Throw e, k') =>
        (Throw e, mkWorld (owner w) (Some k') (context w)
                          (calls w ++ [KernelCopyParametersToContext]))
    end.
Proof. exact (updateParametersInContext_unfold w k). Qed.

(** C5: on a dispatcher that holds a kernel, with a 32-bit mask and a force
    group in 0..31: when bit [forceGroup] of the mask is clear,
    [calcForcesAndEnergy] returns 0 and leaves the whole world as it was
    (no call of the kernel is made, the force buffer is untouched),
    whatever the two flags; when the bit is set it makes one call of the
    kernel's [execute] with the two flags and returns what that call
    returns. *)
Theorem group_gate (w : World K) (k : K) (includeForces includeEnergy : bool) (groups : Z) :
  kernel w = Some k ->
  is_int groups ->
  0 <= forceGroup (owner w) < 32 ->
  (Z.testbit groups (forceGroup (owner w)) = false ->
   calcForcesAndEnergy includeForces includeEnergy groups w = (Ok fzero, w))
  /\ (Z.testbit groups (forceGroup (owner w)) = true ->
      calcForcesAndEnergy includeForces includeEnergy groups w
      = let '(r, k', forces') :=
          kernel_execute (context w) includeForces includeEnergy k in
        (r, mkWorld (owner w) (Some k') (mkContext (ctx_system (context w)) forces')
                    (calls w ++ [KernelExecute includeForces includeEnergy]))).
Proof.
  intros Hk Hint Hg.
  unfold calcForcesAndEnergy, bind, get_owner.
  rewrite (group_bit_test groups _ Hint Hg).
  split; intros ->; [reflexivity|].
  unfold call_kernel_execute, bind, getAs, record, get_context. rewrite Hk. simpl.
  destruct (kernel_execute (context w) includeForces includeEnergy k) as [[r k'] forces'].
  unfold bind, assign_kernel, set_forces, lift_result. simpl. reflexivity.
Qed.

(** C9: when [updateParametersInContext] returns normally on a dispatcher
    that holds a kernel, the dispatcher still holds that kernel, as the
    kernel's [copyParametersToContext] left it, the description and the
    context are unchanged, and exactly two calls were made: the kernel's
    parameter refresh, then [systemChanged] once.  No kernel was created. *)
Theorem update_keeps_kernel_and_notifies (w w' : World K) (k : K) :
  kernel w = Some k ->
  updateParametersInContext w = (Ok tt, w') ->
  (exists k', kernel_copyParametersToContext (context w) (owner w) k = (Ok tt, k')
              /\ kernel w' = Some k')
  /\ owner w' = owner w
  /\ context w' = context w
  /\ calls w' = calls w ++ [KernelCopyParametersToContext; SystemChanged]
  /\ count_occ Event_eq_dec (drop (length (calls w)) (calls w')) SystemChanged = 1%nat.
Proof.
  intros Hk. rewrite (updateParametersInContext_unfold w k Hk).
  destruct (kernel_copyParametersToContext (context w) (owner w) k) as [[[]|e] k'];
    [|discriminate].
  intros [= <-]. cbn [owner kernel context calls].
  split; [exists k'; split; reflexivity|].
  repeat (split; [reflexivity|]).
  rewrite drop_app_length. reflexivity.
Qed.

End DispatcherFacts.

Lemma initialize_rejects_before_kernel_initialize_witness :
  initialize (fresh_world negative_sigma)
  = (Throw ParticleSigmaNegative,
     mkWorld negative_sigma (Some (mkTestKernel None 0)) (mkContext three_system [])
             [CreateKernel "CalcGayBerneForce"]).
Proof.
  exact (initialize_rejects_before_kernel_initialize (fresh_world negative_sigma)
           ParticleSigmaNegative (mkTestKernel None 0) eq_refl eq_refl).
Defined.

(** C1, the claim as stated fails: on the three particles of which the last
    has sigma = -1 the checks report the negative sigma and [initialize]
    throws it, yet the kernel was created first and the dispatcher holds it. *)
Lemma kernel_created_before_checks :
  checkSpecification negative_sigma three_system = Throw ParticleSigmaNegative
  /\ fst (initialize (fresh_world negative_sigma)) = Throw ParticleSigmaNegative
  /\ kernel (snd (initialize (fresh_world negative_sigma))) = Some (mkTestKernel None 0)
  /\ kernel (snd (initialize (fresh_world negative_sigma))) <> None
  /\ calls (snd (initialize (fresh_world negative_sigma))) = [CreateKernel "CalcGayBerneForce"].
Proof.
  rewrite initialize_negative_sigma. cbn [fst snd kernel calls].
  split; [exact negative_sigma_rejected|].
  repeat split; discriminate.
Qed.

Lemma update_without_checks_witness :
  updateParametersInContext (edit_owner (fun _ => negative_sigma) bound_world)
  = (Ok tt,
     mkWorld negative_sigma (Some (mkTestKernel (Some negative_sigma) 1))
             (mkContext three_system [])
             [CreateKernel "CalcGayBerneForce"; KernelInitialize;
              KernelCopyParametersToContext; SystemChanged]).
Proof.
  exact (update_without_checks (edit_owner (fun _ => negative_sigma) bound_world)
           (mkTestKernel (Some three_particles) 0) eq_refl).
Defined.

(** C2, the claim as stated fails: after a successful [initialize] the caller
    gives particle 2 the sigma -1, which the checks of [initialize] reject;
    [updateParametersInContext] returns normally all the same, and the kernel
    now holds the rejected parameters. *)
Lemma update_accepts_rejected_description :
  kernel bound_world = Some (mkTestKernel (Some three_particles) 0)
  /\ checkSpecification negative_sigma three_system = Throw ParticleSigmaNegative
  /\ fst (updateParametersInContext (edit_owner (fun _ => negative_sigma) bound_world)) = Ok tt
  /\ kernel (snd (updateParametersInContext (edit_owner (fun _ => negative_sigma) bound_world)))
     = Some (mkTestKernel (Some negative_sigma) 1).
Proof.
  split; [reflexivity|]. split; [exact negative_sigma_rejected|].
  split; vm_compute; reflexivity.
Qed.

(** Closed arithmetic side conditions, by evaluation. *)
Ltac evaluate_bounds :=
  vm_compute; repeat split; first [reflexivity | discriminate].

Lemma group_gate_witness :
  calcForcesAndEnergy true true 5 (edit_owner (fun f => mkForce (particles f) (exceptions f)
      (nonbondedMethod f) (cutoffDistance f) (switchingDistance f)
      (useSwitchingFunction f) 1) bound_world)
  = (Ok fzero, edit_owner (fun f => mkForce (particles f) (exceptions f)
      (nonbondedMethod f) (cutoffDistance f) (switchingDistance f)
      (useSwitchingFunction f) 1) bound_world)
  /\ fst (calcForcesAndEnergy true true 5 bound_world) = Ok 2.5%float.
Proof.
  split.
  - apply (group_gate _ (mkTestKernel (Some three_particles) 0) true true 5).
    + reflexivity.
    + evaluate_bounds.
    + evaluate_bounds.
    + reflexivity.
  - rewrite (proj2 (group_gate bound_world (mkTestKernel (Some three_particles) 0)
                      true true 5 eq_refl ltac:(evaluate_bounds) ltac:(evaluate_bounds))
               eq_refl).
    reflexivity.
Defined.

Lemma update_keeps_kernel_and_notifies_witness :
  kernel (snd (updateParametersInContext bound_world))
  = Some (mkTestKernel (Some three_particles) 1)
  /\ calls (snd (updateParametersInContext bound_world))
     = calls bound_world ++ [KernelCopyParametersToContext; SystemChanged].
Proof.
  assert (updateParametersInContext bound_world
          = (Ok tt, snd (updateParametersInContext bound_world))) as Hrun
    by (vm_compute; reflexivity).
  destruct (update_keeps_kernel_and_notifies bound_world
              (snd (updateParametersInContext bound_world))
              (mkTestKernel (Some three_particles) 0) eq_refl Hrun)
    as ((k' & Hcopy & Hk') & _ & _ & Hcalls & _).
  split; [|exact Hcalls].
  rewrite Hk'. injection Hcopy as <-. reflexivity.
Defined.

(** * Further properties of the checks *)

Lemma throw_if_Ok_iff c e : throw_if c e = Ok tt <-> c = false.
Proof. destruct c; simpl; split; congruence. Qed.

Lemma first_violation_Ok_iff cs :
  first_violation cs = Ok tt <-> Forall (fun c => c = Ok tt) cs.
Proof.
  split; [|apply first_violation_all_Ok].
  induction cs as [|[[]|e] cs IH]; simpl; intros H.
  - constructor.
  - constructor; [reflexivity | apply IH, H].
  - discriminate.
Qed.

Lemma first_violation_Throw_elem cs e : first_violation cs = Throw e -> Throw e ∈ cs.
Proof.
  induction cs as [|[[]|e'] cs IH]; simpl; intros H.
  - discriminate.
  - apply elem_of_cons. right. apply IH, H.
  - injection H as ->. apply elem_of_cons. left. reflexivity.
Qed.

Lemma ordered_particle_checks_Ok n p :
  Forall (fun c => c = Ok tt) (ordered_particle_checks n p) <-> particle_ok n p.
Proof.
  unfold ordered_particle_checks, particle_ok.
  rewrite !Forall_cons, Forall_nil, !throw_if_Ok_iff, !orb_false_iff.
  split.
  - intros ([H1 H2] & [H3 H4] & H5 & H6 & [[H7 H8] H9] & [[H10 H11] H12] & _).
    repeat split; try assumption; lia.
  - intros (H1 & H2 & H3 & H4 & (H5 & H6 & H7) & (H8 & H9 & H10)).
    repeat split; try assumption; lia.
Qed.

Lemma ordered_particles_checks_Ok n ps :
  Forall (fun c => c = Ok tt) (concat (map (ordered_particle_checks n) ps))
  <-> Forall (particle_ok n) ps.
Proof.
  induction ps as [|p ps IH]; cbn [map concat].
  - split; constructor.
  - rewrite Forall_app, Forall_cons, IH, ordered_particle_checks_Ok. reflexivity.
Qed.

Lemma existsb_same_pair_snoc e earlier e0 :
  existsb (same_pair e) (earlier ++ [e0]) = existsb (same_pair e) earlier || same_pair e e0.
Proof. rewrite existsb_app. simpl. rewrite orb_false_r. reflexivity. Qed.

Lemma ordered_exceptions_checks_Ok n es : forall earlier,
  Forall (fun c => c = Ok tt) (ordered_exceptions_checks n earlier es)
  <-> Forall (exception_ok n) es
      /\ Forall (fun e => existsb (same_pair e) earlier = false) es
      /\ distinct_pairs es.
Proof.
  induction es as [|e es IH]; intros earlier; cbn [ordered_exceptions_checks distinct_pairs].
  - split; [intros _; repeat split; constructor | constructor].
  - rewrite Forall_app, IH. unfold ordered_exception_checks, exception_ok.
    rewrite !Forall_cons, Forall_nil, !throw_if_Ok_iff, !orb_false_iff.
    assert (Forall (fun e' => existsb (same_pair e') (earlier ++ [e]) = false) es
            <-> Forall (fun e' => existsb (same_pair e') earlier = false) es
                /\ Forall (fun e' => same_pair e' e = false) es) as ->.
    { rewrite <- Forall_and. apply Forall_iff. intros e'.
      rewrite existsb_same_pair_snoc, orb_false_iff. reflexivity. }
    split.
    + intros (([H1 H2] & [H3 H4] & H5 & H6 & H7 & _) & Hok & (Hearlier & Hnew) & Hd).
      repeat split; try assumption; lia.
    + intros (((H1 & H2 & H3 & H4) & Hok) & (H5 & Hearlier) & Hnew & Hd).
      repeat split; try assumption; lia.
Qed.

Lemma check_switching_Ok_iff owner :
  check_switching owner = Ok tt
  <-> (useSwitchingFunction owner = true -> switching_out_of_range owner = false).
Proof.
  unfold check_switching. destruct (useSwitchingFunction owner).
  - rewrite throw_if_Ok_iff. split; auto.
  - split; [discriminate | reflexivity].
Qed.

Lemma check_periodic_box_Ok_iff owner system :
  check_periodic_box owner system = Ok tt
  <-> (nonbondedMethod owner = CutoffPeriodic ->
       cutoff_exceeds_half_box (cutoffDistance owner) (sys_boxVectors system) = false).
Proof.
  unfold check_periodic_box. destruct (nonbondedMethod owner).
  - split; [discriminate | reflexivity].
  - split; [discriminate | reflexivity].
  - rewrite throw_if_Ok_iff. split; auto.
Qed.

(** Acceptance by the checks, in terms of the description alone. *)
Lemma checkSpecification_accepts owner system :
  checkSpecification owner system = Ok tt <-> specification_ok owner system.
Proof.
  rewrite checkSpecification_ordered, first_violation_Ok_iff.
  unfold ordered_checks, specification_ok.
  rewrite !Forall_app, !Forall_cons, !Forall_nil.
  rewrite ordered_particles_checks_Ok, ordered_exceptions_checks_Ok.
  rewrite throw_if_Ok_iff, negb_false_iff, Z.eqb_eq.
  rewrite check_switching_Ok_iff, check_periodic_box_Ok_iff.
  split.
  - intros ((Hn & _) & (Hs & _) & Hp & (He & _ & Hd) & Hb & _). repeat split; assumption.
  - intros (Hn & Hs & Hp & He & Hd & Hb). repeat split; try assumption.
    apply Forall_forall. reflexivity.
Qed.

(** X1: the checks of [initialize] accept exactly the descriptions with the
    system's particle count, a switching distance in range when switching is
    in use, particles and exceptions that each pass their own tests, no two
    exceptions for the same unordered pair, and, with the periodic cutoff, a
    cutoff not above half the box. *)
Theorem checkSpecification_Ok_iff owner system :
  checkSpecification owner system = Ok tt <-> specification_ok owner system.
Proof.
  split; intros H.
  - apply checkSpecification_accepts, H.
  - apply checkSpecification_accepts, H.
Qed.

Lemma elem_of_ordered_particles_checks n ps c :
  c ∈ concat (map (ordered_particle_checks n) ps) ->
  exists p, p ∈ ps /\ c ∈ ordered_particle_checks n p.
Proof.
  induction ps as [|p ps IH]; cbn [map concat]; intros H.
  - inversion H.
  - apply elem_of_app in H as [H|H].
    + exists p. split; [apply elem_of_cons; left; reflexivity | exact H].
    + destruct (IH H) as (p' & Hin & Hc). exists p'.
      split; [apply elem_of_cons; right; exact Hin | exact Hc].
Qed.

Lemma elem_of_ordered_exceptions_checks n es c : forall earlier,
  c ∈ ordered_exceptions_checks n earlier es ->
  exists l1 e l2, es = l1 ++ e :: l2 /\ c ∈ ordered_exception_checks n (earlier ++ l1) e.
Proof.
  induction es as [|e es IH]; intros earlier; cbn [ordered_exceptions_checks]; intros H.
  - inversion H.
  - apply elem_of_app in H as [H|H].
    + exists [], e, es. rewrite app_nil_r. split; [reflexivity | exact H].
    + destruct (IH _ H) as (l1 & e' & l2 & -> & Hc).
      exists (e :: l1), e', l2. rewrite <- app_assoc in Hc. split; [reflexivity | exact Hc].
Qed.

(** The five entries of [ordered_exception_checks], one by one. *)
Lemma elem_of_ordered_exception_checks n earlier e err :
  Throw err ∈ ordered_exception_checks n earlier e ->
  (err = IllegalExceptionParticle (e_particle1 e)
   /\ (e_particle1 e < 0 \/ n <= e_particle1 e))
  \/ (err = IllegalExceptionParticle (e_particle2 e)
      /\ (e_particle2 e < 0 \/ n <= e_particle2 e))
  \/ (err = MultipleExceptions (e_particle1 e) (e_particle2 e)
      /\ existsb (same_pair e) earlier = true)
  \/ (err = ExceptionSigmaNegative /\ flt (e_sigma e) fzero = true)
  \/ (err = ExceptionEpsilonNegative /\ flt (e_epsilon e) fzero = true).
Proof.
  unfold ordered_exception_checks. rewrite !elem_of_cons, elem_of_nil.
  intros [H|[H|[H|[H|[H|[]]]]]]; symmetry in H; apply throw_if_Throw in H as [Hc ->].
  - left. split; [reflexivity | lia].
  - right. left. split; [reflexivity | lia].
  - right. right. left. split; [reflexivity | exact Hc].
  - right. right. right. left. split; [reflexivity | exact Hc].
  - right. right. right. right. split; [reflexivity | exact Hc].
Qed.

(** X2: an exception thrown by the checks names a defect the description
    has: the index an illegal-index message prints is an index of some
    particle or exception and is out of range, a duplicate is reported for
    the two indices of an exception that follows one for the same unordered
    pair, and so on for each of the thirteen messages; the checks throw
    nothing else. *)
Theorem thrown_violation_is_present owner system e :
  checkSpecification owner system = Throw e -> defect_present owner system e.
Proof.
  rewrite checkSpecification_ordered. intros H.
  apply first_violation_Throw_elem in H. unfold ordered_checks in H.
  rewrite !elem_of_app, !elem_of_cons, !elem_of_nil in H.
  destruct H as [[H|[]]|[[H|[]]|[H|[H|[H|[]]]]]].
  - symmetry in H. apply throw_if_Throw in H as [Hc ->].
    simpl. apply negb_true_iff, Z.eqb_neq in Hc. exact Hc.
  - symmetry in H. unfold check_switching in H.
    destruct (useSwitchingFunction owner) eqn:Hsw; [|discriminate].
    apply throw_if_Throw in H as [Hc ->]. simpl. auto.
  - apply elem_of_ordered_particles_checks in H as (p & Hin & H).
    unfold ordered_particle_checks in H. rewrite !elem_of_cons, elem_of_nil in H.
    destruct H as [H|[H|[H|[H|[H|[H|[]]]]]]];
      symmetry in H; apply throw_if_Throw in H as [Hc ->]; simpl; exists p;
      (split; [exact Hin|]).
    + split; [reflexivity | lia].
    + split; [reflexivity | lia].
    + exact Hc.
    + exact Hc.
    + rewrite !orb_true_iff in Hc. tauto.
    + rewrite !orb_true_iff in Hc. tauto.
  - apply elem_of_ordered_exceptions_checks in H as (l1 & ex & l2 & Hes & H).
    assert (ex ∈ exceptions owner) as Hin.
    { rewrite Hes. apply elem_of_app. right. apply elem_of_cons. left. reflexivity. }
    apply elem_of_ordered_exception_checks in H
      as [[-> Hr]|[[-> Hr]|[[-> Hdup]|[[-> Hs]|[-> Hs]]]]]; simpl.
    + exists ex. auto.
    + exists ex. auto.
    + rewrite app_nil_l in Hdup. apply existsb_exists in Hdup as (e1 & Hin1 & Hsame).
      apply in_split in Hin1 as (la & lb & ->).
      exists la, e1, lb, ex, l2. rewrite Hes, <- app_assoc. auto.
    + exists ex. auto.
    + exists ex. auto.
  - symmetry in H. unfold check_periodic_box in H.
    destruct (nonbondedMethod owner) eqn:Hm; try discriminate.
    apply throw_if_Throw in H as [Hc ->]. simpl. auto.
Qed.

Lemma thrown_violation_is_present_witness :
  defect_present swapped_duplicate three_system (MultipleExceptions 2 0).
Proof.
  apply thrown_violation_is_present. vm_compute. reflexivity.
Defined.

(** ** Order and orientation of the exceptions *)









(** ** NaN *)

Lemma flt_nan_r x : flt x nan = false.
Proof.
  unfold flt. rewrite ltb_spec. change (Prim2SF nan) with S754_nan.
  unfold SFltb, SFcompare. destruct (Prim2SF x) as [| | |[] ? ?]; reflexivity.
Qed.

Lemma fle_nan_r x : fle x nan = false.
Proof.
  unfold fle. rewrite leb_spec. change (Prim2SF nan) with S754_nan.
  unfold SFleb, SFcompare. destruct (Prim2SF x) as [| | |[] ? ?]; reflexivity.
Qed.

Lemma fle_nan_l x : fle nan x = false.
Proof. unfold fle. rewrite leb_spec. change (Prim2SF nan) with S754_nan. reflexivity. Qed.

Lemma cutoff_nan_within_box box : cutoff_exceeds_half_box nan box = false.
Proof.
  destruct box as [[a b] c]. unfold cutoff_exceeds_half_box, fgt.
  fold (flt (PrimFloat.mul fhalf (vec_x a)) nan).
  fold (flt (PrimFloat.mul fhalf (vec_y b)) nan).
  fold (flt (PrimFloat.mul fhalf (vec_z c)) nan).
  rewrite !flt_nan_r. reflexivity.
Qed.

Lemma particle_ok_nan n p : particle_ok n p -> particle_ok n (nan_particle p).
Proof.
  unfold particle_ok, nan_particle. simpl.
  intros (H1 & H2 & _). repeat split; try lia; reflexivity.
Qed.

Lemma exception_ok_nan n e : exception_ok n e -> exception_ok n (nan_exception e).
Proof.
  unfold exception_ok, nan_exception. simpl.
  intros (H1 & H2 & _). repeat split; try lia; reflexivity.
Qed.

Lemma distinct_pairs_nan es : distinct_pairs es -> distinct_pairs (map nan_exception es).
Proof.
  induction es as [|e es IH]; cbn [map distinct_pairs]; [auto|].
  intros [Hall Hd]. split; [|apply IH, Hd].
  rewrite Forall_fmap. exact Hall.
Qed.

(** X4: the checks never reject a NaN.  On an accepted description,
    replacing the switching distance by NaN, or the cutoff distance by NaN,
    or every double of every particle and exception by NaN, gives a
    description that is accepted too: each test is a comparison that a NaN
    fails. *)
Theorem nan_parameters_accepted owner system :
  checkSpecification owner system = Ok tt ->
  checkSpecification (setSwitchingDistance nan owner) system = Ok tt
  /\ checkSpecification (setCutoffDistance nan owner) system = Ok tt
  /\ checkSpecification
       (setExceptions (map nan_exception (exceptions owner))
          (setParticles (map nan_particle (particles owner)) owner)) system = Ok tt.
Proof.
  rewrite !checkSpecification_accepts. unfold specification_ok.
  intros (Hn & Hs & Hp & He & Hd & Hb). split; [|split].
  - repeat split; try assumption. intros _.
    unfold switching_out_of_range, fge. cbn [switchingDistance cutoffDistance setSwitchingDistance].
    fold (fle (cutoffDistance owner) nan). rewrite fle_nan_r. reflexivity.
  - repeat split; try assumption.
    + intros Hsw. specialize (Hs Hsw). revert Hs.
      unfold switching_out_of_range, fge.
      cbn [switchingDistance cutoffDistance setCutoffDistance].
      rewrite !orb_false_iff. intros [H1 _]. split; [exact H1|].
      fold (fle nan (switchingDistance owner)). apply fle_nan_l.
    + intros _. apply cutoff_nan_within_box.
  - assert (getNumParticles
              (setExceptions (map nan_exception (exceptions owner))
                 (setParticles (map nan_particle (particles owner)) owner))
            = getNumParticles owner) as Hlen.
    { unfold getNumParticles. simpl. rewrite length_map. reflexivity. }
    rewrite Hlen. cbn [particles exceptions setExceptions setParticles].
    repeat split; try assumption.
    + rewrite Forall_fmap. eapply Forall_impl; [exact Hp|]. intros p. apply particle_ok_nan.
    + rewrite Forall_fmap. eapply Forall_impl; [exact He|]. intros e. apply exception_ok_nan.
    + apply distinct_pairs_nan, Hd.
Qed.

Lemma nan_parameters_accepted_witness :
  checkSpecification (setCutoffDistance nan periodic_cutoff_1_5)
                     (mkSystem 3 (unit_box 4%float)) = Ok tt.
Proof.
  apply (nan_parameters_accepted periodic_cutoff_1_5 (mkSystem 3 (unit_box 4%float))).
  vm_compute. reflexivity.
Defined.

(** * Further properties of the dispatcher *)

(** ** Masks that select one group, none, or all *)

Lemma int_wrap_pow2 g : 0 <= g < 31 -> int_wrap (2 ^ g) = 2 ^ g.
Proof.
  intros Hg. unfold int_wrap.
  assert (0 < 2 ^ g) by (apply Z.pow_pos_nonneg; lia).
  assert (2 ^ g < 2 ^ 31) by (apply Z.pow_lt_mono_r; lia).
  rewrite Z.mod_small; lia.
Qed.

Lemma int_shl_one g :
  0 <= g < 32 -> int_shl 1 g = if g =? 31 then - 2 ^ 31 else 2 ^ g.
Proof.
  intros Hg. unfold int_shl. rewrite Z.shiftl_1_l.
  destruct (Z.eqb_spec g 31) as [->|Hne]; [reflexivity|].
  apply int_wrap_pow2. lia.
Qed.

Lemma is_int_shl_one g : 0 <= g < 32 -> is_int (int_shl 1 g).
Proof.
  intros Hg. rewrite int_shl_one by assumption. unfold is_int.
  destruct (Z.eqb_spec g 31) as [->|Hne]; [lia|].
  assert (0 < 2 ^ g) by (apply Z.pow_pos_nonneg; lia).
  assert (2 ^ g < 2 ^ 31) by (apply Z.pow_lt_mono_r; lia).
  lia.
Qed.

Lemma testbit_shl_one g g' :
  0 <= g < 32 -> 0 <= g' < 32 -> Z.testbit (int_shl 1 g') g = (g' =? g).
Proof.
  intros Hg Hg'. rewrite int_shl_one by assumption.
  destruct (Z.eqb_spec g' 31) as [->|Hne].
  - destruct (Z.eqb_spec 31 g) as [<-|Hne]; [reflexivity|].
    change (- 2 ^ 31) with (Z.shiftl (-1) 31). apply Z.shiftl_spec_low. lia.
  - apply Z.pow2_bits_eqb. lia.
Qed.

Lemma testbit_minus_one g : 0 <= g -> Z.testbit (-1) g = true.
Proof. intros Hg. apply Z.bits_m1. exact Hg. Qed.

Section DispatcherMore.
Context {K : Type} `{!Backend K}.

(** The kernel calls on a world that holds a kernel. *)
Lemma call_kernel_execute_unfold (w : World K) (k : K) includeForces includeEnergy :
  kernel w = Some k ->
  call_kernel_execute includeForces includeEnergy w
  = let '(r, k', forces') := kernel_execute (context w) includeForces includeEnergy k in
    (r, mkWorld (owner w) (Some k') (mkContext (ctx_system (context w)) forces')
                (calls w ++ [KernelExecute includeForces includeEnergy])).
Proof.
  intros Hk. unfold call_kernel_execute, bind, getAs, record, get_context. rewrite Hk. simpl.
  destruct (kernel_execute (context w) includeForces includeEnergy k) as [[r k'] forces'].
  unfold bind, assign_kernel, set_forces, lift_result. simpl. reflexivity.
Qed.

Lemma call_kernel_initialize_unfold (w : World K) (k : K) :
  kernel w = Some k ->
  call_kernel_initialize w
  = let '(r, k') := kernel_initialize (ctx_system (context w)) (owner w) k in
    (r, mkWorld (owner w) (Some k') (context w) (calls w ++ [KernelInitialize])).
Proof.
  intros Hk. unfold call_kernel_initialize, bind, getAs, record, get_context, get_owner.
  rewrite Hk. simpl.
  destruct (kernel_initialize (ctx_system (context w)) (owner w) k) as [r k'].
  unfold bind, assign_kernel, lift_result. simpl. destruct r; reflexivity.
Qed.

Lemma calcForcesAndEnergy_testbit (w : World K) includeForces includeEnergy groups :
  is_int groups -> 0 <= forceGroup (owner w) < 32 ->
  calcForcesAndEnergy includeForces includeEnergy groups w
  = if Z.testbit groups (forceGroup (owner w))
    then call_kernel_execute includeForces includeEnergy w
    else (Ok fzero, w).
Proof.
  intros Hint Hg. unfold calcForcesAndEnergy, bind, get_owner.
  rewrite (group_bit_test groups _ Hint Hg).
  destruct (Z.testbit groups (forceGroup (owner w))); reflexivity.
Qed.

(** X5: a mask that selects the single group [g] ([1 << g], for g in
    0..31, 31 included, where the shift wraps to the sign bit) evaluates the
    force exactly when [g] is the force's own group: groups are told apart. *)
Theorem single_group_mask (w : World K) (k : K) (includeForces includeEnergy : bool) (g : Z) :
  kernel w = Some k ->
  0 <= forceGroup (owner w) < 32 ->
  0 <= g < 32 ->
  calcForcesAndEnergy includeForces includeEnergy (int_shl 1 g) w
  = if g =? forceGroup (owner w)
    then let '(r, k', forces') :=
           kernel_execute (context w) includeForces includeEnergy k in
         (r, mkWorld (owner w) (Some k') (mkContext (ctx_system (context w)) forces')
                     (calls w ++ [KernelExecute includeForces includeEnergy]))
    else (Ok fzero, w).
Proof.
  intros Hk Hown Hg.
  rewrite calcForcesAndEnergy_testbit by (try apply is_int_shl_one; assumption).
  rewrite testbit_shl_one by assumption.
  destruct (g =? forceGroup (owner w)); [|reflexivity].
  apply call_kernel_execute_unfold, Hk.
Qed.

(** X6: with the empty mask nothing happens, whatever the dispatcher holds
    (a kernel or none) and whatever its group is; with the mask of all
    groups, -1, a dispatcher that holds a kernel and has a group in 0..31
    always calls the kernel. *)
Theorem empty_and_full_mask (w : World K) (includeForces includeEnergy : bool) :
  calcForcesAndEnergy includeForces includeEnergy 0 w = (Ok fzero, w)
  /\ (forall k, kernel w = Some k ->
      0 <= forceGroup (owner w) < 32 ->
      calcForcesAndEnergy includeForces includeEnergy (-1) w
      = let '(r, k', forces') :=
          kernel_execute (context w) includeForces includeEnergy k in
        (r, mkWorld (owner w) (Some k') (mkContext (ctx_system (context w)) forces')
                    (calls w ++ [KernelExecute includeForces includeEnergy]))).
Proof.
  split.
  - unfold calcForcesAndEnergy, bind, get_owner. rewrite Z.land_0_l. reflexivity.
  - intros k Hk Hg.
    rewrite calcForcesAndEnergy_testbit by (try assumption; unfold is_int; lia).
    rewrite testbit_minus_one by lia.
    apply call_kernel_execute_unfold, Hk.
Qed.

(** X7: whatever happens, [initialize] asks the platform for one kernel,
    under the one name that [getKernelNames] lists, and makes at most one
    more call, the kernel's [initialize]; that call is made exactly when the
    kernel was created and the description passes the checks.  The
    description and the context are never changed. *)
Theorem initialize_calls (w : World K) :
  getKernelNames = [Name]
  /\ owner (snd (initialize w)) = owner w
  /\ context (snd (initialize w)) = context w
  /\ ((calls (snd (initialize w)) = calls w ++ [CreateKernel Name; KernelInitialize]
       /\ (exists k, createKernel Name (context w) = Ok k)
       /\ checkSpecification (owner w) (ctx_system (context w)) = Ok tt)
      \/ (calls (snd (initialize w)) = calls w ++ [CreateKernel Name]
          /\ (exists e, fst (initialize w) = Throw e)
          /\ ((exists e, createKernel Name (context w) = Throw e)
              \/ (exists e, checkSpecification (owner w) (ctx_system (context w)) = Throw e)))).
Proof.
  split; [reflexivity|]. rewrite initialize_unfold.
  destruct (createKernel Name (context w)) as [k|e] eqn:Hcreate; cbn [fst snd owner context calls].
  - destruct (checkSpecification (owner w) (ctx_system (context w))) as [[]|e] eqn:Hcheck.
    + rewrite (call_kernel_initialize_unfold
               (mkWorld (owner w) (Some k) (context w) (calls w ++ [CreateKernel Name])) k eq_refl). cbn [owner context calls].
      destruct (kernel_initialize (ctx_system (context w)) (owner w) k) as [r k'].
      cbn [fst snd owner context calls]. rewrite <- app_assoc.
      repeat split. left. repeat split. exists k. reflexivity.
    + cbn [fst snd owner context calls]. repeat split. right. repeat split; eauto.
  - repeat split. right. repeat split; eauto.
Qed.

(** X8: [initialize] returns normally exactly when the platform creates the
    kernel, the description passes every check and the kernel's [initialize]
    returns normally; the dispatcher then holds that kernel as its
    [initialize] left it, after exactly these two calls. *)
Theorem initialize_success (w w' : World K) :
  initialize w = (Ok tt, w')
  <-> specification_ok (owner w) (ctx_system (context w))
      /\ exists k k',
           createKernel Name (context w) = Ok k
           /\ kernel_initialize (ctx_system (context w)) (owner w) k = (Ok tt, k')
           /\ w' = mkWorld (owner w) (Some k') (context w)
                           (calls w ++ [CreateKernel Name; KernelInitialize]).
Proof.
  rewrite <- checkSpecification_accepts, initialize_unfold. split.
  - destruct (createKernel Name (context w)) as [k|e]; [|discriminate].
    destruct (checkSpecification (owner w) (ctx_system (context w))) as [[]|e]; [|discriminate].
    rewrite (call_kernel_initialize_unfold
               (mkWorld (owner w) (Some k) (context w) (calls w ++ [CreateKernel Name])) k eq_refl). cbn [owner context calls].
    destruct (kernel_initialize (ctx_system (context w)) (owner w) k) as [[[]|e] k']
      eqn:Hinit; [|discriminate].
    intros [= <-]. split; [reflexivity|]. exists k, k'. rewrite <- app_assoc.
    repeat split. exact Hinit.
  - intros (Hcheck & k & k' & Hcreate & Hinit & ->). rewrite Hcreate, Hcheck.
    rewrite (call_kernel_initialize_unfold
               (mkWorld (owner w) (Some k) (context w) (calls w ++ [CreateKernel Name])) k eq_refl). cbn [owner context calls].
    rewrite Hinit, <- app_assoc. reflexivity.
Qed.

(** X9: once the dispatcher holds a kernel, neither [calcForcesAndEnergy] nor
    [updateParametersInContext] drops it, whatever the mask and the flags are
    and whether the kernel returns or throws; neither changes the description
    or the system, and [updateParametersInContext] leaves the force buffer as
    it was. *)
Theorem kernel_handle_kept (w : World K) (k : K) (includeForces includeEnergy : bool) (groups : Z) :
  kernel w = Some k ->
  (is_Some (kernel (snd (calcForcesAndEnergy includeForces includeEnergy groups w)))
   /\ owner (snd (calcForcesAndEnergy includeForces includeEnergy groups w)) = owner w
   /\ ctx_system (context (snd (calcForcesAndEnergy includeForces includeEnergy groups w)))
      = ctx_system (context w))
  /\ (is_Some (kernel (snd (updateParametersInContext w)))
      /\ owner (snd (updateParametersInContext w)) = owner w
      /\ context (snd (updateParametersInContext w)) = context w).
Proof.
  intros Hk. split.
  - unfold calcForcesAndEnergy, bind, get_owner.
    destruct (negb _).
    + rewrite (call_kernel_execute_unfold w k _ _ Hk).
      destruct (kernel_execute (context w) includeForces includeEnergy k) as [[r k'] forces'].
      cbn [snd kernel owner context ctx_system]. repeat split. eauto.
    + cbn [snd ret]. rewrite Hk. repeat split. eauto.
  - rewrite (updateParametersInContext_unfold w k Hk).
    destruct (kernel_copyParametersToContext (context w) (owner w) k) as [[[]|e] k'];
      cbn [snd kernel owner context]; repeat split; eauto.
Qed.

End DispatcherMore.

Lemma single_group_mask_witness :
  calcForcesAndEnergy true true (int_shl 1 31) (edit_owner (setForceGroup 31) bound_world)
  = (Ok 2.5%float,
     mkWorld (setForceGroup 31 three_particles) (Some (mkTestKernel (Some three_particles) 0))
             (mkContext three_system [mkVec3 fzero fzero fzero])
             [CreateKernel "CalcGayBerneForce"; KernelInitialize; KernelExecute true true]).
Proof.
  exact (single_group_mask (edit_owner (setForceGroup 31) bound_world)
           (mkTestKernel (Some three_particles) 0) true true 31 eq_refl
           ltac:(evaluate_bounds) ltac:(evaluate_bounds)).
Defined.

Lemma empty_and_full_mask_witness :
  fst (calcForcesAndEnergy true true (-1) bound_world) = Ok 2.5%float.
Proof.
  rewrite (proj2 (empty_and_full_mask bound_world true true)
             (mkTestKernel (Some three_particles) 0) eq_refl ltac:(evaluate_bounds)).
  reflexivity.
Defined.

Lemma kernel_handle_kept_witness :
  is_Some (kernel (snd (updateParametersInContext bound_world))).
Proof.
  apply (kernel_handle_kept bound_world (mkTestKernel (Some three_particles) 0)
           true true 1 eq_refl).
Defined.

(** * Boundaries of the comparisons *)

Lemma SFcompare_refl f : SFcompare f f = Some Eq \/ SFcompare f f = None.
Proof.
  destruct f as [s|s| |s m e]; simpl.
  - destruct s; auto.
  - destruct s; auto.
  - auto.
  - destruct s; rewrite Z.compare_refl, Pos.compare_cont_refl; auto.
Qed.

Lemma flt_irrefl x : flt x x = false.
Proof.
  unfold flt. rewrite ltb_spec. unfold SFltb.
  destruct (SFcompare_refl (Prim2SF x)) as [-> | ->]; reflexivity.
Qed.

Lemma fle_refl x : PrimFloat.eqb x x = true -> fle x x = true.
Proof.
  unfold fle. rewrite FloatAxioms.eqb_spec, leb_spec. unfold SFeqb, SFleb.
  destruct (SFcompare_refl (Prim2SF x)) as [-> | ->]; [reflexivity | discriminate].
Qed.

(** X10: the periodic box check reads one component of each box vector, x
    of the first, y of the second and z of the third: two systems whose box
    vectors agree on these three components give the same outcome, whatever
    the other six components are. *)
Theorem box_check_reads_diagonal owner n (a b c a' b' c' : Vec3) :
  vec_x a = vec_x a' -> vec_y b = vec_y b' -> vec_z c = vec_z c' ->
  checkSpecification owner (mkSystem n (a, b, c))
  = checkSpecification owner (mkSystem n (a', b', c')).
Proof.
  intros Hx Hy Hz.
  unfold checkSpecification, check_before_box, check_periodic_box, cutoff_exceeds_half_box.
  cbn [sys_numParticles sys_boxVectors]. rewrite Hx, Hy, Hz. reflexivity.
Qed.

Lemma box_check_reads_diagonal_witness :
  checkSpecification periodic_cutoff_1_5
    (mkSystem 3 (mkVec3 4 0 0, mkVec3 1 4 0, mkVec3 1 1 4)%float)
  = checkSpecification periodic_cutoff_1_5 (mkSystem 3 (unit_box 4%float)).
Proof.
  apply (box_check_reads_diagonal periodic_cutoff_1_5 3); reflexivity.
Defined.

(** X11: the periodic test is strict.  A cutoff equal to half of each of the
    three box components the check reads is accepted, once the earlier
    checks pass. *)
Theorem cutoff_at_half_box_accepted owner system (a b c : Vec3) :
  check_before_box owner system = Ok tt ->
  sys_boxVectors system = (a, b, c) ->
  cutoffDistance owner = PrimFloat.mul fhalf (vec_x a) ->
  cutoffDistance owner = PrimFloat.mul fhalf (vec_y b) ->
  cutoffDistance owner = PrimFloat.mul fhalf (vec_z c) ->
  checkSpecification owner system = Ok tt.
Proof.
  intros Hb Hbox Hx Hy Hz. unfold checkSpecification, check_periodic_box. rewrite Hb.
  cbn [rbind]. destruct (nonbondedMethod owner); try reflexivity.
  rewrite Hbox. unfold cutoff_exceeds_half_box, fgt.
  rewrite <- Hx, <- Hy, <- Hz.
  fold (flt (cutoffDistance owner) (cutoffDistance owner)). rewrite flt_irrefl. reflexivity.
Qed.

Lemma cutoff_at_half_box_accepted_witness :
  checkSpecification (setCutoffDistance 1%float periodic_cutoff_1_5) three_system = Ok tt.
Proof.
  apply (cutoff_at_half_box_accepted (setCutoffDistance 1%float periodic_cutoff_1_5)
           three_system (mkVec3 2 0 0)%float (mkVec3 0 2 0)%float (mkVec3 0 0 2)%float);
    vm_compute; reflexivity.
Defined.

(** X12: the switching test is strict on the cutoff side.  With the right
    particle count and switching in use, a switching distance equal to the
    cutoff distance is rejected, provided the cutoff is a number (it
    compares equal to itself). *)
Theorem switching_at_cutoff_rejected owner system :
  getNumParticles owner = sys_numParticles system ->
  useSwitchingFunction owner = true ->
  switchingDistance owner = cutoffDistance owner ->
  PrimFloat.eqb (cutoffDistance owner) (cutoffDistance owner) = true ->
  checkSpecification owner system = Throw BadSwitchingDistance.
Proof.
  intros Hn Hsw Heq Hnum.
  unfold checkSpecification, check_before_box, check_switching, switching_out_of_range, fge.
  rewrite (proj2 (Z.eqb_eq _ _) Hn), Hsw, Heq.
  fold (fle (cutoffDistance owner) (cutoffDistance owner)).
  rewrite (fle_refl _ Hnum), orb_true_r. reflexivity.
Qed.

Lemma switching_at_cutoff_rejected_witness :
  checkSpecification
    (mkForce (particles three_particles) [] CutoffNonPeriodic 1%float 1%float true 0)
    three_system
  = Throw BadSwitchingDistance.
Proof.
  apply switching_at_cutoff_rejected; reflexivity.
Defined.
